(** * react-login-demo: the orchestration core, embedded and verified

    A shallow embedding of the client-side orchestration code of the
    application: the popup/modal queue provider, the profile-setup wizard
    step set, the route guards, the profile service and the two form
    submit handlers.  Every definition follows the TypeScript source it
    is named after; React's [useState] and [useEffect] are modelled by
    explicit state passing. *)

From stdpp Require Import base numbers option list strings gmap.

Local Open Scope string_scope.
Local Open Scope list_scope.
Local Open Scope nat_scope.

(** ** React hooks used by the sources *)

Module React.

(** [setState] accepts either the next value or an updater that receives
    the state produced by the updates queued before it. *)
Inductive SetStateAction (S : Type) : Type :=
| Value (v : S)
| Updater (f : S -> S).

Arguments Value {S} v.
Arguments Updater {S} f.

Definition applyAction {S : Type} (s : S) (a : SetStateAction S) : S :=
  match a with
  | Value v => v
  | Updater f => f s
  end.

(** The state of the next render: the queued updates applied in the
    order in which they were queued. *)
Definition reduceActions {S : Type} (s : S) (queue : list (SetStateAction S)) : S :=
  foldl applyAction s queue.

(** [useEffect(effect, deps)]: the effect runs after the first render of
    a component instance and after every render whose dependencies are
    not all [Object.is]-equal to those of the render before.  [prev] is
    the dependency array the instance remembers ([None] before the first
    render), [same] the member-wise [Object.is]. *)
Definition effectRuns {D : Type} (same : D -> D -> bool) (prev : option D) (deps : D) : bool :=
  match prev with
  | None => true
  | Some d => negb (same d deps)
  end.

End React.

(** ** JavaScript values and completions *)

Module JS.

(** What a [throw] statement or a rejected promise carries. *)
Inductive Thrown : Type :=
| ErrorObject (name message : string)
| ThrownValue (v : string).

(** [err instanceof Error]; [TypeError] and [SyntaxError] extend [Error]. *)
Definition instanceofError (err : Thrown) : bool :=
  match err with
  | ErrorObject _ _ => true
  | ThrownValue _ => false
  end.

Definition message (err : Thrown) : string :=
  match err with
  | ErrorObject _ m => m
  | ThrownValue _ => ""
  end.

(** [new Error(message)] *)
Definition newError (message : string) : Thrown := ErrorObject "Error" message.

(** A call either returns (a promise fulfils) or throws (it rejects). *)
Inductive Completion (A : Type) : Type :=
| Return (a : A)
| Throw (err : Thrown).

Arguments Return {A} a.
Arguments Throw {A} err.

(** A handler's run: the calls it made, in order, and how it completed. *)
Definition Eff (E A : Type) : Type := list E * Completion A.

Definition ret {E A : Type} (a : A) : Eff E A := ([], Return a).

Definition throw {E A : Type} (err : Thrown) : Eff E A := ([], Throw err).

Definition emit {E : Type} (e : E) : Eff E () := ([e], Return ()).

Definition lift {E A : Type} (c : Completion A) : Eff E A := ([], c).

Definition bind {E A B : Type} (m : Eff E A) (k : A -> Eff E B) : Eff E B :=
  match m.2 with
  | Return a => (m.1 ++ (k a).1, (k a).2)
  | Throw err => (m.1, Throw err)
  end.

(** [promise.catch(handler)] for a handler that returns normally. *)
Definition catch {E : Type} (m : Eff E ()) (handler : Thrown -> list E) : list E :=
  match m.2 with
  | Return _ => m.1
  | Throw err => m.1 ++ handler err
  end.

(** A reference that is [undefined], [null] or an object; [addr] is the
    identity of the object. *)
Inductive Nullable (A : Type) : Type :=
| Undefined
| Null
| Object (addr : nat) (v : A).

Arguments Undefined {A}.
Arguments Null {A}.
Arguments Object {A} addr v.

(** ToBoolean on a reference: every object is truthy. *)
Definition truthy {A : Type} (x : Nullable A) : bool :=
  match x with
  | Object _ _ => true
  | _ => false
  end.

(** [Object.is] on references. *)
Definition Object_is {A : Type} (x y : Nullable A) : bool :=
  match x, y with
  | Undefined, Undefined => true
  | Null, Null => true
  | Object a _, Object b _ => bool_decide (a = b)
  | _, _ => false
  end.

(** The values [response.json()] produces.  Numbers are kept as
    integers: the sources only test them for truthiness. *)
#[warnings="-register-all"]
Inductive JSON : Type :=
| JNull
| JBool (b : bool)
| JNumber (n : Z)
| JString (s : string)
| JArray (items : list JSON)
| JObject (fields : list (string * JSON)).

(** A value read in a handler: [undefined] or a parsed JSON value. *)
Definition Value : Type := option JSON.

(** ToBoolean *)
Definition toBoolean (v : Value) : bool :=
  match v with
  | None | Some JNull => false
  | Some (JBool b) => b
  | Some (JNumber n) => negb (n =? 0)%Z
  | Some (JString s) => negb (bool_decide (s = ""))
  | Some (JArray _) | Some (JObject _) => true
  end.

Fixpoint assoc (name : string) (fields : list (string * JSON)) : Value :=
  match fields with
  | [] => None
  | (k, j) :: rest => if bool_decide (k = name) then Some j else assoc name rest
  end.

(** The member expression [v.name] for the names the sources read
    ([success], [data], [id]): reading a property of [undefined] or
    [null] throws a [TypeError], a missing property is [undefined]. *)
Definition getProp (v : Value) (name : string) : Completion Value :=
  match v with
  | None | Some JNull =>
      Throw (ErrorObject "TypeError" ("Cannot read properties of null or undefined (reading '" +:+ name +:+ "')"))
  | Some (JObject fields) => Return (assoc name fields)
  | Some _ => Return None
  end.

(** Code units below 256 that [String.prototype.trim] strips: the white
    space and line terminator characters TAB, LF, VT, FF, CR, SP, NBSP. *)
Definition isWhiteSpace (c : Ascii.ascii) : bool :=
  bool_decide (Ascii.nat_of_ascii c ∈ [9; 10; 11; 12; 13; 32; 160]).

Fixpoint trimStart (s : string) : string :=
  match s with
  | EmptyString => EmptyString
  | String c rest => if isWhiteSpace c then trimStart rest else s
  end.

Definition trimEnd (s : string) : string := String.rev (trimStart (String.rev s)).

Definition trim (s : string) : string := trimEnd (trimStart s).

End JS.

(** ** Array.prototype.toSpliced *)

Module JSArray.

(** [l.toSpliced(start, deleteCount, ...items)]: a negative [start]
    counts from the end, both bounds are clamped to the array. *)
Definition toSpliced {A : Type} (start deleteCount : Z) (items l : list A) : list A :=
  let len := Z.of_nat (length l) in
  let actualStart :=
    if (start <? 0)%Z then Z.max (len + start) 0 else Z.min start len in
  let skipCount := Z.min (Z.max deleteCount 0) (len - actualStart) in
  take (Z.to_nat actualStart) l ++ items ++ drop (Z.to_nat (actualStart + skipCount)) l.

End JSArray.

(** ** contexts/PopupModalManagerContext.tsx *)

Module PopupModalManager.
Import React JSArray.

(** Modelled from the spec: the [Modal] interface of
    [@/interfaces/PopupModalManager] is not part of the sources; the spec
    gives a descriptor an [id], a [type] tag and a [props] data bag. *)
Record Modal : Type := mkModal {
  id : string;
  type : string;
  props : list (string * string);
}.

#[export] Instance Modal_eq_dec : EqDecision Modal.
Proof. solve_decision. Defined.

(** [Omit<Modal, 'id'> & { id?: Modal['id'] }] *)
Record ModalInit : Type := mkModalInit {
  init_id : option string;
  init_type : string;
  init_props : list (string * string);
}.

(** [{ ...modal, id: modal.id ?? uuidv4() }]; the value [uuidv4()] would
    return is an argument. *)
Definition newModal (uuid : string) (modal : ModalInit) : Modal :=
  {| id := default uuid (init_id modal);
     type := init_type modal;
     props := init_props modal |}.

(** One render of [PopupManagerProvider]: [modals] is the state value the
    closures of this render captured, [pending] the [setModals] calls
    made since. *)
Record Provider : Type := mkProvider {
  modals : list Modal;
  pending : list (SetStateAction (list Modal));
}.

(** [useState<Modal[]>([])] *)
Definition initial : Provider := {| modals := []; pending := [] |}.

Definition setModals (a : SetStateAction (list Modal)) (p : Provider) : Provider :=
  {| modals := modals p; pending := pending p ++ [a] |}.

Definition queueModal (uuid : string) (modal : ModalInit) (p : Provider) : Provider :=
  let newModal := newModal uuid modal in
  setModals (Updater (fun modals => toSpliced 1 0 [newModal] modals)) p.

Definition hideModal (id' : string) (p : Provider) : Provider :=
  setModals (Value (filter (fun modal => id modal ≠ id') (modals p))) p.

Definition getModals (p : Provider) : list Modal := modals p.

Definition clearModals (p : Provider) : Provider := setModals (Value []) p.

(** The next render pass: the component function runs again with the
    reduced state, and its closures capture that value. *)
Definition render (p : Provider) : Provider :=
  {| modals := reduceActions (modals p) (pending p); pending := [] |}.

(** A run of [queueModal] calls, in program order. *)
Definition queueAll (calls : list (string * ModalInit)) (p : Provider) : Provider :=
  foldl (fun p c => queueModal c.1 c.2 p) p calls.

(** [queueModal] calls with render passes anywhere between them. *)
Inductive Step : Type :=
| Queue (uuid : string) (modal : ModalInit)
| RenderPass.

Definition step (p : Provider) (s : Step) : Provider :=
  match s with
  | Queue uuid modal => queueModal uuid modal p
  | RenderPass => render p
  end.

Definition run (steps : list Step) (p : Provider) : Provider := foldl step p steps.

(** The [queueModal] calls among the steps. *)
Definition queued (steps : list Step) : list (string * ModalInit) :=
  omap (fun s => match s with Queue uuid modal => Some (uuid, modal) | RenderPass => None end) steps.

Definition ids (q : list Modal) : list string := id <$> q.

End PopupModalManager.

(** ** contexts/ProfileSetupWizardContext.ts *)

Module ProfileSetupWizardContext.

(** [export enum ProfileSetupStep], as declared. *)
Inductive ProfileSetupStep : Type :=
| STEP_USERNAME
| STEP_PROFILE_PICTURE.

#[export] Instance ProfileSetupStep_eq_dec : EqDecision ProfileSetupStep.
Proof. solve_decision. Defined.

Definition stepValue (step : ProfileSetupStep) : string :=
  match step with
  | STEP_USERNAME => "STEP_USERNAME"
  | STEP_PROFILE_PICTURE => "STEP_PROFILE_PICTURE"
  end.

Definition declaredSteps : list ProfileSetupStep := [STEP_USERNAME; STEP_PROFILE_PICTURE].

(** The object the enum declaration evaluates to: member name to value. *)
Definition ProfileSetupStep_object : gmap string string :=
  list_to_map [("STEP_USERNAME", "STEP_USERNAME");
               ("STEP_PROFILE_PICTURE", "STEP_PROFILE_PICTURE")].

(** The member expression [ProfileSetupStep.name]; [None] is the
    [undefined] a missing property reads as. *)
Definition member (name : string) : option string := ProfileSetupStep_object !! name.

(** The declared step a run-time value denotes, if any. *)
Definition fromValue (v : option string) : option ProfileSetupStep :=
  s ← v;
  found ← list_find (fun step => stepValue step = s) declaredSteps;
  Some found.2.

Definition isDeclared (v : option string) : bool := bool_decide (is_Some (fromValue v)).

(** Modelled from the spec: the interface [IWizardController] of
    [@/interfaces/WizardController.ts] is not part of the sources.  The
    spec gives it a readable [currentStep] and a [setCurrentStep(step)]
    operation; the caller in the sources invokes the method optionally
    ([?.]), so it may be missing.  [R] is what a call of the method
    yields. *)
Record IWizardController (R : Type) : Type := mkIWizardController {
  currentStep : option string;
  setCurrentStep : option (option string -> R);
}.

Arguments mkIWizardController {R} _ _.
Arguments currentStep {R} _.
Arguments setCurrentStep {R} _.

(** [createContext<IWizardController<ProfileSetupStep> | null>(null)] *)
Definition WizardContext (R : Type) : Type := option (IWizardController R).

Definition WizardContext_default {R : Type} : WizardContext R := None.

End ProfileSetupWizardContext.

(** ** The wizard controller of the spec *)

Module WizardController.
Import JS.

Section Controller.

Context {StepId : Type}.

(** Which run-time values denote a step of the flow's declared set. *)
Variable fromValue : option string -> option StepId.
Variable toValue : StepId -> string.

(** Modelled from the spec: the component that implements the wizard
    controller is not part of the sources.  Wizard state is one value
    [currentStep] of the closed step enumeration. *)
Record State : Type := mkState { currentStep : StepId }.

(** Modelled from the spec: [setCurrentStep(step)] sets the step to
    exactly the given value, with no check that it is forward of the old
    one. *)
Definition setCurrentStep (step : StepId) (w : State) : State :=
  {| currentStep := step |}.

(** Modelled from the spec: a step identifier that arrives as a
    string-like value and is outside the declared enumeration is
    rejected before the state is mutated. *)
Definition setCurrentStepValue (v : option string) (w : State) : Completion State :=
  match fromValue v with
  | Some step => Return (setCurrentStep step w)
  | None => Throw (newError "Invalid step")
  end.

(** Modelled from the spec: the state after a call is unchanged when
    the call was rejected. *)
Definition after (w : State) (c : Completion State) : State :=
  match c with
  | Return w' => w'
  | Throw _ => w
  end.

(** Modelled from the spec: the controller object a provider hands to
    the step screens through [WizardContext]. *)
Definition controller (w : State) : ProfileSetupWizardContext.IWizardController (Completion State) :=
  {| ProfileSetupWizardContext.currentStep := Some (toValue (currentStep w));
     ProfileSetupWizardContext.setCurrentStep := Some (fun v => setCurrentStepValue v w) |}.

End Controller.

End WizardController.

(** ** routes/ProfileSetupProfilePicture.tsx *)

Module ProfileSetupProfilePicture.
Import JS ProfileSetupWizardContext.

Record Blob : Type := mkBlob { size : N; mime : string }.

(** The calls the component makes on its collaborators. *)
Inductive Call (R : Type) : Type :=
| SetIsLoading (b : bool)
| FetchMockPost (url : string) (status : Z) (body : JSON)
| FetchMockRestore
| SetProfilePicture (profileId : string) (image : Blob)
| ConsoleError (err : Thrown)
| WizardCall (r : R).

Arguments SetIsLoading {R} b.
Arguments FetchMockPost {R} url status body.
Arguments FetchMockRestore {R}.
Arguments SetProfilePicture {R} profileId image.
Arguments ConsoleError {R} err.
Arguments WizardCall {R} r.

(** [wizardController?.setCurrentStep?.(ProfileSetupStep.STEP_COMPLETE)] *)
Definition goToNextStep {R : Type} (wizardController : WizardContext R) : option R :=
  wc ← wizardController;
  f ← setCurrentStep wc;
  Some (f (member "STEP_COMPLETE")).

(** The synchronous part of [handleSubmitResponse] on a fetch mock that
    holds no route for the URL, so that [fetchMock.post] registers it;
    [croppedImage] is [croppedImage.current].  [ProfilePictureMock]
    follows the routes of the mock from call to call. *)
Definition handleSubmitResponse {R : Type} (croppedImage : option Blob) : Eff (Call R) () :=
  bind (emit (SetIsLoading true)) (fun _ =>
  bind (emit (FetchMockPost "express:/api/profile/:profileId/picture" 200
                (JObject [("success", JBool true);
                          ("data", JObject [("src", JString "profilepicture.png")])]))) (fun _ =>
  match croppedImage with
  | None => throw (newError "No image data to submit")
  | Some image => emit (SetProfilePicture "1234" image)
  end)).

(** The [then]/[catch]/[finally] chain, run when the promise of
    [setProfilePicture] settles, for a controller whose [setCurrentStep]
    returns; [R] is what it returns.  [ProfilePictureMock] has the chain
    for a controller that may throw. *)
Definition handleSubmitResponse_settled {R : Type}
    (wizardController : WizardContext R) (outcome : Completion Value) : list (Call R) :=
  catch
    (bind (lift outcome) (fun res =>
     bind (lift (getProp res "success")) (fun success =>
     if toBoolean success
     then match goToNextStep wizardController with
          | Some r => emit (WizardCall r)
          | None => ret ()
          end
     else ret ())))
    (fun err => [ConsoleError err])
  ++ [SetIsLoading false; FetchMockRestore].

End ProfileSetupProfilePicture.

(** ** The route components: IndexPage, SignUpPage, SignInPage *)

Module Routes.
Import React JS.

(** The session user the pages read from the context; its declaration
    is not part of the sources, the pages read [id], [username] and
    [avatarSrc] of it. *)
Record AuthenticatedUser : Type := mkUser {
  id : string;
  username : option string;
  avatarSrc : option string;
}.

(** One call [navigate(to, { replace })]. *)
Record Navigation : Type := mkNavigation { to : string; replace : bool }.

#[export] Instance Navigation_eq_dec : EqDecision Navigation.
Proof. solve_decision. Defined.

(** [navigate('/signin', { replace: true })] and
    [navigate('/', { replace: true })] *)
Definition toSignIn : Navigation := mkNavigation "/signin" true.
Definition toHome : Navigation := mkNavigation "/" true.

(** The dependency array [[activeUser, navigate]]; the function
    [navigate] is known by its identity. *)
Definition Deps : Type := Nullable AuthenticatedUser * nat.

Definition sameDeps (a b : Deps) : bool :=
  Object_is a.1 b.1 && bool_decide (a.2 = b.2).

(** The effect of [IndexPage] (both versions of the home route):
    [if (!activeUser) navigate('/signin', { replace: true })]. *)
Definition IndexPage_effect (activeUser : Nullable AuthenticatedUser) : list Navigation :=
  if negb (truthy activeUser) then [toSignIn] else [].

(** The effect of [SignUpPage]:
    [if (activeUser) navigate('/', { replace: true })]. *)
Definition SignUpPage_effect (activeUser : Nullable AuthenticatedUser) : list Navigation :=
  if truthy activeUser then [toHome] else [].

(** The effect of [SignInPage], the same statement. *)
Definition SignInPage_effect (activeUser : Nullable AuthenticatedUser) : list Navigation :=
  if truthy activeUser then [toHome] else [].

(** One render of a mounted page followed by its effect phase: the
    navigations issued and the dependencies the instance remembers. *)
Definition renderPage (effect : Nullable AuthenticatedUser -> list Navigation)
    (lastDeps : option Deps) (deps : Deps) : list Navigation * option Deps :=
  (if effectRuns sameDeps lastDeps deps then effect deps.1 else [], Some deps).

(** Successive renders of one instance: the navigations of each render. *)
Fixpoint renders (effect : Nullable AuthenticatedUser -> list Navigation)
    (lastDeps : option Deps) (props : list Deps) : list (list Navigation) :=
  match props with
  | [] => []
  | deps :: rest =>
      let r := renderPage effect lastDeps deps in
      r.1 :: renders effect r.2 rest
  end.

(** Renders from the mount of the page on. *)
Definition mountAndRender (effect : Nullable AuthenticatedUser -> list Navigation)
    (props : list Deps) : list (list Navigation) :=
  renders effect None props.

End Routes.

(** ** services/profile.ts *)

Module ProfileService.
Import JS.

Definition ERR_UNEXPECTED_ERROR : string := "ERR_UNEXPECTED_ERROR".
Definition ERR_USERNAME_TAKEN : string := "ERR_USERNAME_TAKEN".

Record Request : Type := mkRequest {
  path : string;
  method : string;
  body : JSON;
}.

(** The outcome of [response.json()]: the parsed body, or a rejection
    with a [SyntaxError] when the body is not JSON. *)
Inductive JsonResult : Type :=
| Parsed (j : JSON)
| NotJSON (message : string).

(** What the function reads of a [Response]. *)
Record Response : Type := mkResponse {
  status : Z;
  json : JsonResult;
}.

(** The outcome of [fetch]: a response of any status, or a rejection
    with a [TypeError] when the request cannot be completed. *)
Inductive FetchResult : Type :=
| Responded (response : Response)
| NetworkError (message : string).

(** [response.ok]: the status is in the range 200-299. *)
Definition ok (response : Response) : bool :=
  (200 <=? status response)%Z && (status response <=? 299)%Z.

Definition awaitJson (r : JsonResult) : Completion Value :=
  match r with
  | Parsed j => Return (Some j)
  | NotJSON message => Throw (ErrorObject "SyntaxError" message)
  end.

Definition setUsername_request (profileId username : string) : Request :=
  {| path := "/api/profile/" +:+ profileId;
     method := "PATCH";
     body := JObject [("username", JString username)] |}.

(** [setUsername({ profileId, username })]; [fetch] is the platform
    function. *)
Definition setUsername (fetch : Request -> FetchResult)
    (profileId username : string) : Completion Value :=
  match fetch (setUsername_request profileId username) with
  | NetworkError message => Throw (ErrorObject "TypeError" message)
  | Responded response =>
      if negb (ok response) then
        if bool_decide (status response = 409%Z)
        then Throw (newError ERR_USERNAME_TAKEN)
        else Throw (newError ERR_UNEXPECTED_ERROR)
      else awaitJson (json response)
  end.

(** The error codes the spec fixes for the services. *)
Definition fixedCodes : list string :=
  ["ERR_UNEXPECTED_ERROR"; "ERR_SIGNUP_REJECTED"; "ERR_USERNAME_TAKEN"].

(** A thrown value that is an [Error] whose message is a fixed code. *)
Definition carriesFixedCode (err : Thrown) : Prop :=
  instanceofError err = true ∧ message err ∈ fixedCodes.

End ProfileService.

(** ** components/AuthSignUpForm.tsx *)

Module AuthSignUpForm.
Import JS.

(** Modelled from the spec: the constants of [@/services/auth.ts] are not
    part of the sources; the spec names the error codes. *)
Definition ERR_UNEXPECTED_ERROR : string := "ERR_UNEXPECTED_ERROR".
Definition ERR_SIGNUP_REJECTED : string := "ERR_SIGNUP_REJECTED".

Definition MSG_ERR_GENERIC : string := "Unable to create account. Please try again later".
Definition MSG_ERR_REJECTED : string := "This email and password combination cannot be used".

Definition MSG_WARN_UNTRIMMED : string :=
  "Your password may contain leading or trailing spaces" +:+ String (Ascii.ascii_of_nat 10) "" +:+
  "Resubmit if you're certain you want to proceed".

Record SignUpFormData : Type := mkSignUpFormData {
  email : string;
  password : string;
}.

Definition responseSuccess : JSON :=
  JObject [("success", JBool true); ("data", JObject [("id", JString "1234")])].

Definition responseErrorSignUpRejected : JSON :=
  JObject [("success", JBool false); ("message", JString ERR_SIGNUP_REJECTED)].

(** The calls the form makes: state setters, the callbacks of the props
    and the auth service. *)
Inductive Call : Type :=
| SetIsPasswordVisible (b : bool)
| SetUserWarnedUntrimmedPassword (b : bool)
| OnErrorCallback (err : string)
| OnSubmitCallback
| OnSuccessCallback (id : Value)
| FetchMockPost (status : Z) (body : JSON)
| FetchMockRestore
| CreateUser (data : SignUpFormData)
| SetError (message : string).

#[export] Instance SignUpFormData_eq_dec : EqDecision SignUpFormData.
Proof. solve_decision. Defined.

(** The [then] callback on the promise of [createUser]. *)
Definition onFulfilled (res : Value) : Eff Call () :=
  bind (lift (getProp res "success")) (fun success =>
  if toBoolean success then
    bind (lift (getProp res "data")) (fun data =>
    bind (lift (getProp data "id")) (fun id =>
    emit (OnSuccessCallback id)))
  else throw (newError ERR_UNEXPECTED_ERROR)).

(** The [catch] callback. *)
Definition onRejected (err : Thrown) : list Call :=
  if instanceofError err then
    if negb (bool_decide (message err = "")) && bool_decide (message err = ERR_SIGNUP_REJECTED)
    then [SetError MSG_ERR_REJECTED; OnErrorCallback MSG_ERR_REJECTED]
    else [SetError MSG_ERR_GENERIC; OnErrorCallback MSG_ERR_GENERIC]
  else [SetError MSG_ERR_GENERIC; OnErrorCallback MSG_ERR_GENERIC].

(** [createUser(data).then(...).catch(...)], run when the promise of
    [createUser] settles with [outcome]. *)
Definition createUser_settled (outcome : Completion Value) : list Call :=
  catch (bind (lift outcome) onFulfilled) onRejected.

(** The synchronous part of [formSignUpSubmitHandler];
    [userWarnedUntrimmedPassword] is the state value the callback of the
    current render captured. *)
Definition formSignUpSubmitHandler (userWarnedUntrimmedPassword : bool)
    (data : SignUpFormData) : list Call :=
  [SetIsPasswordVisible false] ++
  if negb userWarnedUntrimmedPassword && negb (bool_decide (password data = trim (password data)))
  then [SetUserWarnedUntrimmedPassword true; OnErrorCallback MSG_WARN_UNTRIMMED]
  else
    [OnSubmitCallback] ++
    (if negb (bool_decide (email data = "registered@example.com"))
     then [FetchMockPost 200 responseSuccess]
     else [FetchMockPost 403 responseErrorSignUpRejected]) ++
    [CreateUser data; FetchMockRestore].

(** What the [catch] callback does for the two kinds of failure. *)
Definition genericFailure : list Call :=
  [SetError MSG_ERR_GENERIC; OnErrorCallback MSG_ERR_GENERIC].

Definition rejectedFailure : list Call :=
  [SetError MSG_ERR_REJECTED; OnErrorCallback MSG_ERR_REJECTED].

(** The value of [userWarnedUntrimmedPassword] at the next render. *)
Definition nextUserWarned (userWarnedUntrimmedPassword : bool) (calls : list Call) : bool :=
  foldl (fun warned c =>
           match c with
           | SetUserWarnedUntrimmedPassword b => b
           | _ => warned
           end) userWarnedUntrimmedPassword calls.

Definition callsAuthService (calls : list Call) : bool :=
  existsb (fun c => match c with CreateUser _ => true | _ => false end) calls.

Definition callsOnSubmit (calls : list Call) : bool :=
  existsb (fun c => match c with OnSubmitCallback => true | _ => false end) calls.

End AuthSignUpForm.

(** ** components/ModalOverlay.tsx and the calls of one event handler *)

Module ModalOverlay.
Import React PopupModalManager.

(** [popupManager.modals.length > 0]: whether the backdrop is rendered. *)
Definition shouldShowModal (modals : list Modal) : bool :=
  bool_decide (0 < length modals).

(** A call on the popup manager object of one render. *)
Inductive Op : Type :=
| OpQueue (uuid : string) (modal : ModalInit)
| OpHide (id : string)
| OpClear.

Definition call (p : Provider) (op : Op) : Provider :=
  match op with
  | OpQueue uuid modal => queueModal uuid modal p
  | OpHide i => hideModal i p
  | OpClear => clearModals p
  end.

(** The calls an event handler makes before the next render pass. *)
Definition handler (ops : list Op) (p : Provider) : Provider := foldl call p ops.

(** The queue a run of [queueModal] calls builds on top of [q]. *)
Definition insertAll (calls : list (string * ModalInit)) (q : list Modal) : list Modal :=
  foldl (fun q c => JSArray.toSpliced 1 0 [newModal c.1 c.2] q) q calls.

End ModalOverlay.

(** ** components/AuthSignUpForm.tsx: the schema and successive submissions *)

Module SignUpSchema.
Import JS AuthSignUpForm.

Definition MSG_PASSWORD_MIN : string := "Password must be at least 8 characters long".
Definition MSG_PASSWORD_CHARS : string := "Can only contains letters, numbers, spaces and symbols".

(** The character class of the password pattern: [a-z], [A-Z], [0-9],
    the space and the listed symbols, given by their codes in the order
    of the pattern. *)
Definition passwordChar (c : Ascii.ascii) : bool :=
  let n := Ascii.nat_of_ascii c in
  bool_decide (97 ≤ n ≤ 122) || bool_decide (65 ≤ n ≤ 90) || bool_decide (48 ≤ n ≤ 57)
  || bool_decide (n ∈ [32; 33; 64; 35; 36; 37; 94; 38; 42; 40; 41; 45; 95; 43; 61; 91; 93;
                       123; 125; 124; 92; 59; 58; 39; 34; 44; 46; 60; 62; 47; 63]).

(** The anchored pattern: every character is in the class. *)
Fixpoint matchesPasswordPattern (s : string) : bool :=
  match s with
  | EmptyString => true
  | String c rest => passwordChar c && matchesPasswordPattern rest
  end.

(** The issues [signUpSchema] reports for the password field, in the
    order of its checks: [min(8)], then [regex]. *)
Definition passwordIssues (password : string) : list string :=
  (if bool_decide (String.length password < 8) then [MSG_PASSWORD_MIN] else []) ++
  (if matchesPasswordPattern password then [] else [MSG_PASSWORD_CHARS]).

Definition passwordValid (password : string) : bool :=
  bool_decide (passwordIssues password = []).

(** Successive submissions of the form, with a render pass after each:
    the calls of each submission. *)
Fixpoint submitAll (userWarnedUntrimmedPassword : bool) (submissions : list SignUpFormData)
    : list (list Call) :=
  match submissions with
  | [] => []
  | data :: rest =>
      let calls := formSignUpSubmitHandler userWarnedUntrimmedPassword data in
      calls :: submitAll (nextUserWarned userWarnedUntrimmedPassword calls) rest
  end.

(** Whether a submission called [onError]. *)
Definition raisesWarning (calls : list Call) : bool :=
  existsb (fun c => match c with OnErrorCallback _ => true | _ => false end) calls.

End SignUpSchema.

(** ** routes/SignUpPage.tsx and the sign-in page *)

Module AuthPages.
Import JS Routes.

Record PageState : Type := mkPageState {
  isSubmitting : bool;
  isModalOpen : bool;
  isAlertModalOpen : bool;
  alertModalMessage : option string;
}.

(** The four [useState] initial values. *)
Definition initialPage : PageState := mkPageState false false false None.

(** What a page does outside its own state. *)
Inductive PageCall : Type :=
| SetActiveUser (id : Value)
| Navigate (n : Navigation).

(** [onFormSignUpSubmit] and [onFormLoginSubmit] *)
Definition onFormSubmit (st : PageState) : PageState :=
  {| isSubmitting := true; isModalOpen := true;
     isAlertModalOpen := isAlertModalOpen st; alertModalMessage := alertModalMessage st |}.

(** [onFormSignUpSuccess] and [onFormLoginSuccess]; [id] is [user.id]. *)
Definition onFormSuccess (id : Value) (st : PageState) : PageState * list PageCall :=
  ({| isSubmitting := false; isModalOpen := false;
      isAlertModalOpen := isAlertModalOpen st; alertModalMessage := alertModalMessage st |},
   [SetActiveUser id; Navigate toHome]).

(** [err || fallback] on an optional string. *)
Definition orElse (err : option string) (fallback : string) : string :=
  match err with
  | Some e => if bool_decide (e = "") then fallback else e
  | None => fallback
  end.

(** [onFormSignUpError] and [onFormLoginError]; [fallback] is the message
    of the page. *)
Definition onFormError (fallback : string) (err : option string) (st : PageState) : PageState :=
  {| isSubmitting := false; isModalOpen := true;
     isAlertModalOpen := true; alertModalMessage := Some (orElse err fallback) |}.

Definition handleAlertModalDismiss (st : PageState) : PageState :=
  {| isSubmitting := isSubmitting st; isModalOpen := false;
     isAlertModalOpen := false; alertModalMessage := alertModalMessage st |}.

Definition SignUpPage_fallback : string := "Sign up failed".
Definition SignInPage_fallback : string := "An error occurred during sign in".

(** What can happen to a mounted page. *)
Inductive PageEvent : Type :=
| FormSubmit
| FormSuccess (id : Value)
| FormError (err : option string)
| AlertDismiss.

Definition pageStep (fallback : string) (st : PageState) (e : PageEvent) : PageState :=
  match e with
  | FormSubmit => onFormSubmit st
  | FormSuccess id => (onFormSuccess id st).1
  | FormError err => onFormError fallback err st
  | AlertDismiss => handleAlertModalDismiss st
  end.

Definition pageRun (fallback : string) (events : list PageEvent) (st : PageState) : PageState :=
  foldl (pageStep fallback) st events.

(** The error reasons among the events, in order. *)
Definition errorsOf (events : list PageEvent) : list (option string) :=
  omap (fun e => match e with FormError err => Some err | _ => None end) events.

(** The props [onSubmit], [onSuccess] and [onError] of [AuthSignUpForm]
    as the sign-up page passes them: the page event a call of the form
    amounts to. *)
Definition pageEvent (c : AuthSignUpForm.Call) : option PageEvent :=
  match c with
  | AuthSignUpForm.OnSubmitCallback => Some FormSubmit
  | AuthSignUpForm.OnSuccessCallback id => Some (FormSuccess id)
  | AuthSignUpForm.OnErrorCallback err => Some (FormError (Some err))
  | _ => None
  end.

Definition deliver (calls : list AuthSignUpForm.Call) (st : PageState) : PageState :=
  pageRun SignUpPage_fallback (omap pageEvent calls) st.

End AuthPages.

(** ** routes/ProfileSetupProfilePicture.tsx: the page state and the editor *)

Module ProfilePicturePage.
Import JS ProfileSetupWizardContext ProfileSetupProfilePicture.

(** ToBoolean on an optional string: [undefined] and the empty string
    are falsy. *)
Definition truthyString (s : option string) : bool :=
  match s with
  | Some s => negb (bool_decide (s = ""))
  | None => false
  end.

(** The state of [ProfileSetupProfilePicture]: its four [useState]
    values and the ref [croppedImage]. *)
Record State : Type := mkState {
  isLoading : bool;
  imageFileSrc : option string;
  isCropEditorVisible : bool;
  croppedImage : option Blob;
  imagePreviewUrl : option string;
}.

Definition initialState : State := mkState false None false None None.

Definition setIsLoading (b : bool) (st : State) : State :=
  mkState b (imageFileSrc st) (isCropEditorVisible st) (croppedImage st) (imagePreviewUrl st).

(** [showCropper(url)]: [setImageFileSrc(url); setIsCropEditorVisible(!!url)] *)
Definition showCropper (url : option string) (st : State) : State :=
  mkState (isLoading st) url (truthyString url) (croppedImage st) (imagePreviewUrl st).

Definition hideCropper (st : State) : State := showCropper None st.

(** The synchronous part of [handleFileSelect]. *)
Definition handleFileSelect (st : State) : State := setIsLoading true st.

(** The [then]/[finally] chain on the promise of [fixImageOrientation]. *)
Definition handleFileSelect_settled (outcome : Completion (option string)) (st : State) : State :=
  setIsLoading false
    match outcome with
    | Return url => if truthyString url then showCropper url st else st
    | Throw _ => st
    end.

(** The calls on [URL]. *)
Inductive UrlCall : Type :=
| RevokeObjectURL (url : string)
| CreateObjectURL (blob : Blob).

(** [handleCropConfirm(blob)]; [objectUrl] is what [URL.createObjectURL]
    returns. *)
Definition handleCropConfirm (blob : Blob) (objectUrl : string) (st : State)
    : State * list UrlCall :=
  (hideCropper (mkState (isLoading st) (imageFileSrc st) (isCropEditorVisible st)
                  (Some blob) (Some objectUrl)),
   match imagePreviewUrl st with
   | Some old => if truthyString (Some old) then [RevokeObjectURL old] else []
   | None => []
   end ++ [CreateObjectURL blob]).

(** What a call of the submit handler does to the page state. *)
Definition applyCall {R : Type} (st : State) (c : Call R) : State :=
  match c with
  | SetIsLoading b => setIsLoading b st
  | _ => st
  end.

(** The three blocks of the JSX, in order, that are rendered. *)
Inductive View : Type :=
| BusyView
| EditorView
| FormView.

Definition views (st : State) : list View :=
  (if isLoading st then [BusyView] else []) ++
  (if isCropEditorVisible st && negb (isLoading st) then [EditorView] else []) ++
  (if negb (isCropEditorVisible st) && negb (isLoading st) then [FormView] else []).

(** [ProfileSetupProfilePictureForm]: the Continue button is rendered
    when [props.previewUrl] is truthy. *)
Definition continueShown (previewUrl : option string) : bool := truthyString previewUrl.

Definition chooseLabel (previewUrl : option string) : string :=
  if negb (truthyString previewUrl) then "Choose File" else "Change Picture".

(** The calls of [ProfilePictureEditor.handleConfirm]. *)
Inductive EditorCall (CropParams : Type) : Type :=
| CropImage (src : string) (params : option CropParams)
| OnApply (blob : Blob).

Arguments CropImage {CropParams} src params.
Arguments OnApply {CropParams} blob.

(** [handleConfirm]; [onApply] tells whether the prop is given,
    [params] is [avatarCropParam.current] and [cropped] what the promise
    of [cropImage] settles with. *)
Definition handleConfirm {CropParams : Type} (src : option string) (onApply : bool)
    (params : option CropParams) (cropped : Completion (option Blob))
    : Eff (EditorCall CropParams) () :=
  match src with
  | Some s =>
      if negb (truthyString (Some s)) then throw (newError "No crop image source")
      else if onApply then
        bind (emit (CropImage s params)) (fun _ =>
        bind (lift cropped) (fun imageBlob =>
        match imageBlob with
        | Some blob => emit (OnApply blob)
        | None => throw (newError "No crop result returned")
        end))
      else ret ()
  | None => throw (newError "No crop image source")
  end.

Section Events.

Context {R : Type}.
Variable wizardController : WizardContext R.

(** What can happen to the mounted page. *)
Inductive Event : Type :=
| FileSelect
| FileSelectSettled (outcome : Completion (option string))
| CropConfirm (blob : Blob) (objectUrl : string)
| CropCancel
| Submit
| SubmitSettled (outcome : Completion Value).

Definition step (st : State) (e : Event) : State :=
  match e with
  | FileSelect => handleFileSelect st
  | FileSelectSettled outcome => handleFileSelect_settled outcome st
  | CropConfirm blob objectUrl => (handleCropConfirm blob objectUrl st).1
  | CropCancel => hideCropper st
  | Submit => foldl applyCall st (handleSubmitResponse (R:=R) (croppedImage st)).1
  | SubmitSettled outcome =>
      foldl applyCall st (handleSubmitResponse_settled wizardController outcome)
  end.

Definition run (events : list Event) : State := foldl step initialState events.

(** The blobs of the crop confirmations among the events, in order. *)
Definition confirmed (events : list Event) : list Blob :=
  omap (fun e => match e with CropConfirm blob _ => Some blob | _ => None end) events.

End Events.

End ProfilePicturePage.

(** ** services/profile.ts: checkUsernameAvailability *)

Module ProfileServiceCheck.
Import JS ProfileService.

(** The request of [checkUsernameAvailability]: the search parameters,
    the method and the identity of the abort signal, if any. *)
Record CheckRequest : Type := mkCheckRequest {
  query : list (string * string);
  check_method : string;
  signal : option nat;
}.

(** What the function reads of the [Response]: the status, which it
    never looks at, and how [response.json()] settles: with the parsed
    body, or with a rejection ([SyntaxError] for a body that is not
    JSON, [AbortError] when the signal fires while the body is read,
    [TypeError] for a body that cannot be read). *)
Record CheckResponse : Type := mkCheckResponse {
  check_status : Z;
  check_json : Completion JSON;
}.

(** How the promise of [fetch] settles; with a signal it may reject with
    an [AbortError] as well. *)
Inductive Settled : Type :=
| Fulfilled (response : CheckResponse)
| Rejected (err : Thrown).

Definition checkUsernameAvailability_request (username : string) (signal : option nat)
    : CheckRequest :=
  {| query := [("action", "check-username"); ("username", username)];
     check_method := "GET";
     signal := signal |}.

(** [checkUsernameAvailability(username, signal)] *)
Definition checkUsernameAvailability (fetch : CheckRequest -> Settled)
    (username : string) (signal : option nat) : Completion Value :=
  match fetch (checkUsernameAvailability_request username signal) with
  | Rejected err => Throw err
  | Fulfilled response =>
      match check_json response with
      | Return j => Return (Some j)
      | Throw err => Throw err
      end
  end.

End ProfileServiceCheck.

(** ** features/profile/setup/ProfileSetupPage.tsx *)

Module ProfileSetupPage.

(** A slide, by its [data-slide-key] attribute ([None] when it has
    none). *)
Definition Slide : Type := option string.

(** The callback given to [findIndex]: it returns the index for the
    username slide and nothing otherwise. *)
Definition usernameCallback (el : Slide) (index : nat) : option nat :=
  if bool_decide (el = Some "username") then Some index else None.

(** ToBoolean on what the callback returns: [undefined] and [0] are
    falsy. *)
Definition toBooleanIndex (r : option nat) : bool :=
  match r with
  | Some (S _) => true
  | _ => false
  end.

(** [Array.prototype.findIndex]: the first index whose callback result
    is truthy, [-1] when there is none. *)
Fixpoint findIndexFrom {A : Type} (callback : A -> nat -> bool) (index : nat) (l : list A) : Z :=
  match l with
  | [] => (-1)%Z
  | x :: rest =>
      if callback x index then Z.of_nat index else findIndexFrom callback (S index) rest
  end.

Definition findIndex {A : Type} (callback : A -> nat -> bool) (l : list A) : Z :=
  findIndexFrom callback 0 l.

Definition stepUsernameIndex (slides : list Slide) : Z :=
  findIndex (fun el index => toBooleanIndex (usernameCallback el index)) slides.

(** The slides the page renders: loader, username, picture, complete. *)
Definition pageSlides : list Slide := [None; Some "username"; None; None].

End ProfileSetupPage.

(** ** routes/ProfileSetupProfilePicture.tsx: the fetch mock and the promise chain *)

Module ProfilePictureMock.
Import JS ProfileSetupWizardContext ProfileSetupProfilePicture.







Section Chain.

Context {S : Type}.

(** The controller whose [setCurrentStep] may return or throw. *)
Variable wizardController : WizardContext (Completion S).

(** The [then] callback of [handleSubmitResponse]: a throw of
    [goToNextStep()] leaves the callback. *)
Definition onFulfilled (res : Value) : Eff (Call (Completion S)) () :=
  bind (lift (getProp res "success")) (fun success =>
  if toBoolean success then
    match goToNextStep wizardController with
    | Some r =>
        bind (emit (WizardCall r)) (fun _ =>
        match r with
        | Return _ => ret ()
        | Throw err => throw err
        end)
    | None => ret ()
    end
  else ret ()).

(** The whole chain [.then(...).catch(...).finally(...)], run when the
    promise of [setProfilePicture] settles with [outcome]. *)
Definition handleSubmitResponse_chain (outcome : Completion Value)
    : list (Call (Completion S)) :=
  catch (bind (lift outcome) onFulfilled) (fun err => [ConsoleError err])
  ++ [SetIsLoading false; FetchMockRestore].

End Chain.

End ProfilePictureMock.

(** * Properties *)

(** ** The hook and array models *)

Section HookFacts.
Import React JSArray.

Lemma reduceActions_snoc {S : Type} (s : S) queue a :
  reduceActions s (queue ++ [a]) = applyAction (reduceActions s queue) a.
Proof. unfold reduceActions. by rewrite foldl_app. Qed.

Lemma reduceActions_snoc_value {S : Type} (s : S) queue v :
  reduceActions s (queue ++ [Value v]) = v.
Proof. by rewrite reduceActions_snoc. Qed.

Lemma toSpliced_1_0 {A : Type} (x : A) (l : list A) :
  toSpliced 1 0 [x] l =
  match l with
  | [] => [x]
  | a :: rest => a :: x :: rest
  end.
Proof.
  destruct l as [|a rest]; [reflexivity|].
  unfold toSpliced. change (1 <? 0)%Z with false. cbv iota zeta.
  assert (Hstart : Z.min 1 (Z.of_nat (length (a :: rest))) = 1%Z)
    by (cbn [length]; lia).
  rewrite Hstart.
  assert (Hskip : Z.min (Z.max 0 0) (Z.of_nat (length (a :: rest)) - 1) = 0%Z)
    by (cbn [length]; lia).
  rewrite Hskip. reflexivity.
Qed.

Lemma toSpliced_1_0_length {A : Type} (x : A) (l : list A) :
  length (toSpliced 1 0 [x] l) = S (length l).
Proof. rewrite toSpliced_1_0. by destruct l. Qed.

Lemma toSpliced_1_0_head {A : Type} (x : A) (l : list A) :
  head (toSpliced 1 0 [x] l) = head (l ++ [x]).
Proof. rewrite toSpliced_1_0. by destruct l. Qed.

Lemma filter_all {A : Type} (P : A -> Prop) `{!∀ x, Decision (P x)} (l : list A) :
  (∀ x, x ∈ l -> P x) -> filter P l = l.
Proof.
  induction l as [|a l IH]; intros Hall; [done|].
  rewrite filter_cons_True by (apply Hall; left).
  f_equal. apply IH. intros x Hx. apply Hall. by right.
Qed.

End HookFacts.

(** ** The modal queue *)

Section PopupModalManagerFacts.
Import React JSArray PopupModalManager.

Lemma render_queueModal uuid modal p :
  getModals (render (queueModal uuid modal p)) =
  toSpliced 1 0 [newModal uuid modal] (getModals (render p)).
Proof.
  unfold getModals, render, queueModal, setModals; cbn [modals pending].
  by rewrite reduceActions_snoc.
Qed.

Lemma render_hideModal i p :
  getModals (render (hideModal i p)) =
  filter (fun modal => id modal ≠ i) (getModals p).
Proof.
  unfold getModals, render, hideModal, setModals; cbn [modals pending].
  by rewrite reduceActions_snoc_value.
Qed.

Lemma render_clearModals p : getModals (render (clearModals p)) = [].
Proof.
  unfold getModals, render, clearModals, setModals; cbn [modals pending].
  by rewrite reduceActions_snoc_value.
Qed.

Lemma render_render p : getModals (render (render p)) = getModals (render p).
Proof. reflexivity. Qed.

Lemma queueAll_snoc calls c p :
  queueAll (calls ++ [c]) p = queueModal c.1 c.2 (queueAll calls p).
Proof. unfold queueAll. by rewrite foldl_app. Qed.

Lemma run_snoc steps s p : run (steps ++ [s]) p = step (run steps p) s.
Proof. unfold run. by rewrite foldl_app. Qed.

(** Render passes between the calls do not change what the queue
    becomes. *)
Lemma render_run steps p :
  getModals (render (run steps p)) = getModals (render (queueAll (queued steps) p)).
Proof.
  induction steps as [|s steps IH] using rev_ind; [reflexivity|].
  rewrite run_snoc. unfold queued. rewrite omap_app. fold (queued steps).
  destruct s as [uuid modal|]; cbn [step].
  - change (omap _ [Queue uuid modal]) with [(uuid, modal)].
    by rewrite queueAll_snoc, !render_queueModal, IH.
  - change (omap _ [RenderPass]) with (@nil (string * ModalInit)).
    by rewrite app_nil_r, render_render.
Qed.

(** Filtering out the one descriptor that carries an id. *)
Lemma filter_unique_id (l1 l2 : list Modal) (m : Modal) :
  NoDup (ids (l1 ++ m :: l2)) ->
  filter (fun modal => id modal ≠ id m) (l1 ++ m :: l2) = l1 ++ l2.
Proof.
  unfold ids. rewrite fmap_app, fmap_cons.
  intros Hnd. apply NoDup_app in Hnd as (_ & Hl1 & Hnd).
  apply NoDup_cons in Hnd as [Hl2 _].
  rewrite filter_app, filter_cons_False by (intros H; by apply H).
  f_equal; apply filter_all; intros x Hx Heq.
  - apply (Hl1 (id x)); [by apply list_elem_of_fmap_2 | rewrite Heq; left].
  - apply Hl2. rewrite <- Heq. by apply list_elem_of_fmap_2.
Qed.

Lemma filter_absent_id (q : list Modal) (i : string) :
  i ∉ ids q -> filter (fun modal => id modal ≠ i) q = q.
Proof.
  intros Hni. apply filter_all. intros x Hx Heq. apply Hni.
  rewrite <- Heq. by apply list_elem_of_fmap_2.
Qed.

(** C1: for every queue state, [queueModal] inserts the new descriptor
    at index 1: into the empty queue it becomes the head, after a single
    element it becomes the second, and [[A; B; C]] becomes
    [[A; D; B; C]]; the descriptor at index 0 stays where it is.  The
    descriptor inserted is the one given: its [type] and [props], with
    its [id] when it has one and the generated id otherwise. *)
Theorem queueModal_inserts_at_index_1 (uuid : string) (modal : ModalInit) (p : Provider) :
  let q := getModals (render p) in
  let m := mkModal (match init_id modal with Some i => i | None => uuid end)
                   (init_type modal) (init_props modal) in
  let q' := getModals (render (queueModal uuid modal p)) in
  q' = match q with
       | [] => [m]
       | active :: rest => active :: m :: rest
       end
  ∧ q' !! (1 `min` length q) = Some m
  ∧ head q' = head (q ++ [m])
  ∧ (∀ A B C D : Modal,
       getModals (render (queueModal uuid (mkModalInit (Some (id D)) (type D) (props D))
                            (mkProvider [A; B; C] []))) = [A; D; B; C])
  ∧ (∀ (A B C : Modal) (type' : string) (props' : list (string * string)),
       getModals (render (queueModal uuid (mkModalInit None type' props')
                            (mkProvider [A; B; C] []))) =
       [A; mkModal uuid type' props'; B; C])
  ∧ (∀ A B C : Modal,
       getModals (render (queueModal uuid modal (mkProvider [A; B; C] []))) = [A; m; B; C])
  ∧ (∀ A : Modal,
       getModals (render (queueModal uuid modal (mkProvider [A] []))) = [A; m])
  ∧ getModals (render (queueModal uuid modal initial)) = [m].
Proof.
  intros q m q'.
  assert (Hm : newModal uuid modal = m) by (unfold m, newModal; by destruct (init_id modal)).
  assert (Hq' : q' = match q with [] => [m] | active :: rest => active :: m :: rest end).
  { unfold q'. rewrite render_queueModal, Hm. apply toSpliced_1_0. }
  split; [exact Hq'|].
  split; [rewrite Hq'; by destruct q|].
  split; [rewrite Hq'; by destruct q|].
  split; [|split; [|split; [|split]]].
  - intros A B C D. rewrite render_queueModal, toSpliced_1_0. by destruct D.
  - intros A B C type' props'. by rewrite render_queueModal, toSpliced_1_0.
  - intros A B C. by rewrite render_queueModal, toSpliced_1_0, Hm.
  - intros A. by rewrite render_queueModal, toSpliced_1_0, Hm.
  - by rewrite render_queueModal, toSpliced_1_0, Hm.
Qed.

(** C3, at the failing input: in one event handler (no render pass in
    between) [queueModal(m)] followed by [hideModal("other")] leaves a
    queue without [m], for [hideModal] writes the filtered queue of the
    render it was created in over the queued insertion.  With a render
    pass in between [m] is kept. *)
Theorem hideModal_overwrites_queued_modal :
  let m := mkModalInit (Some "m") "alert" [] in
  let p := hideModal "other" (queueModal "uuid" m initial) in
  getModals (render p) = []
  ∧ (newModal "uuid" m ∉ getModals (render p))
  ∧ (∀ (p0 : Provider) uuid modal i,
       getModals (render (hideModal i (queueModal uuid modal p0))) =
       filter (fun modal => id modal ≠ i) (getModals p0))
  ∧ newModal "uuid" m ∈
      getModals (render (hideModal "other" (render (queueModal "uuid" m initial)))).
Proof.
  intros m p. split; [reflexivity|]. split; [|split].
  - replace (getModals (render p)) with (@nil Modal) by reflexivity. apply not_elem_of_nil.
  - intros p0 uuid modal i. by rewrite render_hideModal.
  - rewrite render_hideModal, render_queueModal. vm_compute. left.
Qed.

(** C4, the claim as stated fails: with two descriptors of the same id
    in the queue, [hideModal] of that id shortens the queue by two. *)
Lemma hideModal_length_counterexample :
  ¬ (∀ (p : Provider) (i : string),
       length (getModals (render (hideModal i p))) =
       if bool_decide (i ∈ ids (getModals p))
       then length (getModals p) - 1
       else length (getModals p)).
Proof.
  intros H.
  specialize (H (mkProvider [mkModal "a" "alert" []; mkModal "a" "confirm" []] []) "a").
  vm_compute in H. discriminate H.
Qed.

(** C4, amended: for every queue whose descriptors have pairwise
    distinct ids and every id, [hideModal(id)] removes exactly the
    descriptor with that id, wherever it is: the length reported by
    [getModals()] after the next render is one less if a descriptor has
    that id and unchanged otherwise, and the other descriptors keep
    their relative order. *)
Theorem hideModal_removes_the_descriptor (p : Provider) (i : string) :
  NoDup (ids (getModals p)) ->
  let q := getModals p in
  let q' := getModals (render (hideModal i p)) in
  length q' = (if bool_decide (i ∈ ids q) then length q - 1 else length q)
  ∧ (∀ l1 m l2, q = l1 ++ m :: l2 -> id m = i -> q' = l1 ++ l2)
  ∧ (i ∉ ids q -> q' = q)
  ∧ sublist q' q
  ∧ (∀ m, m ∈ q' ↔ m ∈ q ∧ id m ≠ i).
Proof.
  intros Hnd q q'.
  assert (Hq' : q' = filter (fun modal => id modal ≠ i) q)
    by (unfold q'; apply render_hideModal).
  assert (Hsplit : ∀ l1 m l2, q = l1 ++ m :: l2 -> id m = i -> q' = l1 ++ l2).
  { intros l1 m l2 Hq Hid. rewrite Hq', <- Hid, Hq.
    apply filter_unique_id. unfold q in Hq. by rewrite <- Hq. }
  assert (Habsent : i ∉ ids q -> q' = q).
  { intros Hni. rewrite Hq'. by apply filter_absent_id. }
  split; [|split; [exact Hsplit|split; [exact Habsent|split]]].
  - case_bool_decide as Hin.
    + apply list_elem_of_fmap_1 in Hin as (m & Hid & Hm).
      apply list_elem_of_split in Hm as (l1 & l2 & Hq).
      rewrite (Hsplit l1 m l2 Hq (eq_sym Hid)), Hq, !length_app. cbn [length]. lia.
    + by rewrite Habsent.
  - rewrite Hq'. apply sublist_filter.
  - intros m. rewrite Hq', list_elem_of_filter. tauto.
Qed.

Lemma hideModal_removes_the_descriptor_witness :
  let A := mkModal "a" "alert" [] in
  let B := mkModal "b" "alert" [] in
  let C := mkModal "c" "alert" [] in
  NoDup (ids [A; B; C])
  ∧ getModals (render (hideModal "b" (mkProvider [A; B; C] []))) = [A; C].
Proof.
  intros A B C.
  assert (Hnd : NoDup (ids (getModals (mkProvider [A; B; C] [])))) by (vm_compute; by compute_done).
  split; [exact Hnd|].
  exact (proj1 (proj2 (hideModal_removes_the_descriptor (mkProvider [A; B; C] []) "b" Hnd))
           [A] B [C] eq_refl eq_refl).
Defined.

Lemma queueAll_length calls :
  length (getModals (render (queueAll calls initial))) = length calls.
Proof.
  induction calls as [|c calls IH] using rev_ind; [reflexivity|].
  rewrite queueAll_snoc, render_queueModal, toSpliced_1_0_length, IH, length_app.
  cbn [length]. lia.
Qed.

Lemma queueModal_head uuid modal p :
  head (getModals (render (queueModal uuid modal p))) =
  head (getModals (render p) ++ [newModal uuid modal]).
Proof. rewrite render_queueModal. apply toSpliced_1_0_head. Qed.

Lemma queueAll_head calls :
  head (getModals (render (queueAll calls initial))) =
  (fun c => newModal c.1 c.2) <$> head calls.
Proof.
  induction calls as [|c calls IH] using rev_ind; [reflexivity|].
  rewrite queueAll_snoc, queueModal_head, head_app, IH.
  destruct calls as [|c0 calls0]; reflexivity.
Qed.

(** C5: starting from the empty queue, after [n] calls of [queueModal]
    the queue [getModals()] reports at the next render pass has length
    [n], and its element at index 0 is the first descriptor queued: no
    later [queueModal] call changes it.  This holds wherever render
    passes fall between the calls, and the ids need not even be distinct
    for it. *)
Theorem queueModal_calls_length_and_head :
  (∀ calls : list (string * ModalInit),
     length (getModals (render (queueAll calls initial))) = length calls
     ∧ head (getModals (render (queueAll calls initial))) =
         (fun c => newModal c.1 c.2) <$> head calls)
  ∧ (∀ steps : list Step,
       length (getModals (render (run steps initial))) = length (queued steps)
       ∧ head (getModals (render (run steps initial))) =
           (fun c => newModal c.1 c.2) <$> head (queued steps))
  ∧ (∀ uuid modal (p : Provider),
       head (getModals (render (queueModal uuid modal p))) =
       head (getModals (render p) ++ [newModal uuid modal]))
  ∧ (∀ uuid modal (p : Provider) active,
       head (getModals (render p)) = Some active ->
       head (getModals (render (queueModal uuid modal p))) = Some active).
Proof.
  split; [|split; [|split]].
  - intros calls. split; [apply queueAll_length|apply queueAll_head].
  - intros steps. rewrite render_run. split; [apply queueAll_length|apply queueAll_head].
  - apply queueModal_head.
  - intros uuid modal p active Hhead. rewrite queueModal_head.
    destruct (getModals (render p)); [discriminate Hhead|exact Hhead].
Qed.

Lemma queueModal_calls_length_and_head_witness :
  let A := mkModalInit (Some "a") "alert" [] in
  let B := mkModalInit None "alert" [] in
  let C := mkModalInit (Some "c") "alert" [] in
  getModals (render (run [Queue "u1" A; RenderPass; Queue "u2" B; Queue "u3" C] initial)) =
    [newModal "u1" A; newModal "u3" C; newModal "u2" B]
  ∧ length (getModals (render (run [Queue "u1" A; RenderPass; Queue "u2" B; Queue "u3" C] initial))) = 3
  ∧ head (getModals (render (queueModal "u3" C (run [Queue "u1" A; RenderPass; Queue "u2" B] initial)))) =
      Some (newModal "u1" A).
Proof.
  intros A B C. split; [reflexivity|]. split.
  - exact (proj1 (proj1 (proj2 queueModal_calls_length_and_head)
                    [Queue "u1" A; RenderPass; Queue "u2" B; Queue "u3" C])).
  - exact (proj2 (proj2 (proj2 queueModal_calls_length_and_head))
             "u3" C (run [Queue "u1" A; RenderPass; Queue "u2" B] initial)
             (newModal "u1" A) eq_refl).
Defined.

End PopupModalManagerFacts.

(** ** The profile-setup wizard *)

Section WizardFacts.
Import JS ProfileSetupWizardContext ProfileSetupProfilePicture.

Lemma member_stepValue (step : ProfileSetupStep) :
  member (stepValue step) = Some (stepValue step).
Proof. by destruct step. Qed.

Lemma fromValue_stepValue (step : ProfileSetupStep) :
  fromValue (Some (stepValue step)) = Some step.
Proof. by destruct step. Qed.

Lemma fromValue_Some (v : option string) (step : ProfileSetupStep) :
  fromValue v = Some step -> v = Some (stepValue step).
Proof.
  destruct v as [s|]; [|done]. unfold fromValue. cbn [mbind option_bind].
  destruct (list_find _ _) as [[k found]|] eqn:Hfind; [|done].
  cbn. intros [= <-]. apply list_find_Some in Hfind as (_ & Hs & _).
  by rewrite Hs.
Qed.

(** Under the controller of the spec, whatever values are passed, the
    current step stays a declared one. *)
Lemma setCurrentStepValue_declared (v : option string) (w : WizardController.State) :
  let w' := WizardController.after w (WizardController.setCurrentStepValue fromValue v w) in
  WizardController.currentStep w' ∈ declaredSteps.
Proof. intros w'. destruct (WizardController.currentStep w'); set_solver. Qed.

(** The fail-fast controller of the spec rejects the value the
    transition passes, and its step stays where it was. *)
Lemma goToNextStep_rejected (w : WizardController.State) :
  goToNextStep (Some (WizardController.controller fromValue stepValue w)) =
    Some (Throw (newError "Invalid step"))
  ∧ WizardController.after w
      (WizardController.setCurrentStepValue fromValue (member "STEP_COMPLETE") w) = w.
Proof. split; reflexivity. Qed.

(** C2, at the failing input: the skip/continue transition of the
    profile-picture step passes [ProfileSetupStep.STEP_COMPLETE] to
    [setCurrentStep], and the declared enumeration has no such member:
    the expression reads as [undefined], which is not a declared step.
    Whatever the controller's [setCurrentStep] is, it receives that
    value, so the transition does not set a declared step. *)
Theorem goToNextStep_passes_undeclared_step :
  member "STEP_COMPLETE" = None
  ∧ ("STEP_COMPLETE" ∉ stepValue <$> declaredSteps)
  ∧ isDeclared (member "STEP_COMPLETE") = false
  ∧ (∀ (R : Type) (f : option string -> R) (cur : option string),
       goToNextStep (Some (mkIWizardController cur (Some f))) = Some (f None))
  ∧ (∀ step : ProfileSetupStep, member (stepValue step) = Some (stepValue step)).
Proof.
  split; [by vm_compute|].
  split; [by compute_done|].
  split; [by vm_compute|].
  split; [reflexivity|].
  apply member_stepValue.
Qed.

(** C6: for every step [X] of the declared enumeration, adjacent to the
    current one or not, [setCurrentStep(X)] followed by reading
    [currentStep] gives exactly [X]; nothing checks that [X] is forward
    of the old step, so every declared step is reached directly from any
    other. *)
Theorem setCurrentStep_then_read :
  (∀ (StepId : Type) (X : StepId) (w : WizardController.State),
     WizardController.currentStep (WizardController.setCurrentStep X w) = X)
  ∧ (∀ (X : ProfileSetupStep) (w : WizardController.State),
       let c := WizardController.setCurrentStepValue fromValue (Some (stepValue X)) w in
       c = Return (WizardController.setCurrentStep X w)
       ∧ WizardController.currentStep (WizardController.after w c) = X
       ∧ currentStep (WizardController.controller fromValue stepValue
                        (WizardController.after w c)) = Some (stepValue X))
  ∧ (∀ X Y : ProfileSetupStep,
       WizardController.currentStep
         (WizardController.setCurrentStep X (WizardController.mkState Y)) = X).
Proof.
  split; [reflexivity|]. split; [|reflexivity].
  intros X w c. unfold c, WizardController.setCurrentStepValue.
  rewrite fromValue_stepValue. by repeat split.
Qed.

End WizardFacts.

(** ** The profile-picture step *)

Section ProfilePictureFacts.
Import JS ProfileSetupWizardContext ProfileSetupProfilePicture.

Context {R : Type}.

(** On a fetch mock that holds no route for the URL, the submit
    operation throws [Error('No image data to submit')] out of the
    handler if and only if no cropped image blob is stored; with a
    cropped image it goes on to the call of the profile service and does
    not throw. *)
Theorem handleSubmitResponse_throws_iff_no_image (croppedImage : option Blob) :
  ((handleSubmitResponse (R:=R) croppedImage).2 = Throw (newError "No image data to submit")
     ↔ croppedImage = None)
  ∧ ((∃ err, (handleSubmitResponse (R:=R) croppedImage).2 = Throw err) ↔ croppedImage = None)
  ∧ (∀ image : Blob,
       (handleSubmitResponse (R:=R) (Some image)).2 = Return ()
       ∧ last (handleSubmitResponse (R:=R) (Some image)).1 = Some (SetProfilePicture "1234" image))
  ∧ (∀ profileId image,
       SetProfilePicture profileId image ∈ (handleSubmitResponse (R:=R) croppedImage).1 ->
       profileId = "1234" ∧ croppedImage = Some image).
Proof.
  split; [|split; [|split]].
  - destruct croppedImage; cbn; split; congruence.
  - destruct croppedImage; cbn; split; try congruence.
    + intros [err Herr]. discriminate Herr.
    + intros _. by eexists.
  - intros image. by cbn.
  - intros profileId image. destruct croppedImage as [b|]; cbn.
    + rewrite !elem_of_cons, elem_of_nil. intros [H|[H|[H|[]]]]; try discriminate H.
      by injection H as -> ->.
    + rewrite !elem_of_cons, elem_of_nil. intros [H|[H|[]]]; discriminate H.
Qed.

End ProfilePictureFacts.

(** ** The route guards *)

Section RouteFacts.
Import React JS Routes.

Lemma Object_is_truthy {A : Type} (a b : Nullable A) :
  Object_is a b = true -> truthy a = truthy b.
Proof. by destruct a, b. Qed.

Lemma sameDeps_truthy (a b : Deps) : sameDeps a b = true -> truthy a.1 = truthy b.1.
Proof.
  unfold sameDeps. intros H. apply andb_prop in H as [H _].
  by apply Object_is_truthy.
Qed.

(** A guard is an effect that issues one navigation when a condition on
    the user holds. *)
Variable cond : Nullable AuthenticatedUser -> bool.
Variable nav : Navigation.
Variable effect : Nullable AuthenticatedUser -> list Navigation.
Hypothesis effect_spec : ∀ user, effect user = if cond user then [nav] else [].
Hypothesis cond_same : ∀ a b : Deps, sameDeps a b = true -> cond a.1 = cond b.1.

Lemma renderPage_guard (lastDeps : option Deps) (deps : Deps) :
  (renderPage effect lastDeps deps).1 =
  if effectRuns sameDeps lastDeps deps && cond deps.1 then [nav] else [].
Proof.
  unfold renderPage. cbn [fst]. rewrite effect_spec.
  by destruct (effectRuns sameDeps lastDeps deps), (cond deps.1).
Qed.

(** At a render where the condition holds, the navigation was issued at
    that render or at an earlier one since which the condition held at
    every render; or the streak reaches back before the renders
    considered. *)
Lemma renders_guard_streak (props : list Deps) :
  ∀ (lastDeps : option Deps) (k : nat) (deps : Deps),
    props !! k = Some deps -> cond deps.1 = true ->
    (∃ j, j ≤ k ∧ renders effect lastDeps props !! j = Some [nav]
          ∧ ∀ i d, j ≤ i ≤ k -> props !! i = Some d -> cond d.1 = true)
    ∨ (∃ prev, lastDeps = Some prev ∧ cond prev.1 = true
          ∧ ∀ i d, i ≤ k -> props !! i = Some d -> cond d.1 = true).
Proof.
  induction props as [|d0 rest IH]; intros lastDeps k deps Hk Hcond; [done|].
  assert (Hhead : cond d0.1 = true ->
            (renders effect lastDeps (d0 :: rest) !! 0 = Some [nav])
            ∨ (∃ prev, lastDeps = Some prev ∧ cond prev.1 = true)).
  { intros Hd0. cbn [renders lookup list_lookup]. rewrite renderPage_guard, Hd0, andb_true_r.
    destruct lastDeps as [prev|]; cbn [effectRuns]; [|by left].
    destruct (sameDeps prev d0) eqn:Hsame; cbn [negb]; [|by left].
    right. exists prev. split; [done|]. by rewrite (cond_same _ _ Hsame). }
  destruct k as [|k].
  - injection Hk as ->. destruct (Hhead Hcond) as [Hrun|(prev & -> & Hprev)].
    + left. exists 0. split; [lia|]. split; [done|].
      intros i d Hi Hd. assert (i = 0) as -> by lia. by injection Hd as <-.
    + right. exists prev. split; [done|]. split; [done|].
      intros i d Hi Hd. assert (i = 0) as -> by lia. by injection Hd as <-.
  - cbn [lookup list_lookup] in Hk.
    destruct (IH (Some d0) k deps Hk Hcond) as [(j & Hj & Hrun & Hstreak)|(prev & Heq & Hd0 & Hall)].
    + left. exists (S j). split; [lia|]. split; [exact Hrun|].
      intros i d Hi Hd. destruct i as [|i]; [lia|].
      apply (Hstreak i d); [lia|exact Hd].
    + injection Heq as <-.
      assert (Hall' : ∀ i d, i ≤ S k -> (d0 :: rest) !! i = Some d -> cond d.1 = true).
      { intros i d Hi Hd. destruct i as [|i].
        - by injection Hd as <-.
        - apply (Hall i d); [lia|exact Hd]. }
      destruct (Hhead Hd0) as [Hrun|(prev & -> & Hprev)].
      * left. exists 0. split; [lia|]. split; [exact Hrun|].
        intros i d Hi Hd. apply (Hall' i d); [lia|exact Hd].
      * right. exists prev. by repeat split.
Qed.

Lemma mount_guard_streak (props : list Deps) (k : nat) (deps : Deps) :
  props !! k = Some deps -> cond deps.1 = true ->
  ∃ j, j ≤ k ∧ mountAndRender effect props !! j = Some [nav]
       ∧ ∀ i d, j ≤ i ≤ k -> props !! i = Some d -> cond d.1 = true.
Proof.
  intros Hk Hcond.
  destruct (renders_guard_streak props None k deps Hk Hcond) as [H|(prev & Heq & _)];
    [exact H|discriminate Heq].
Qed.

End RouteFacts.

Section RouteGuards.
Import React JS Routes.

Lemma IndexPage_effect_guard user :
  IndexPage_effect user = if negb (truthy user) then [toSignIn] else [].
Proof. reflexivity. Qed.

Lemma SignUpPage_effect_guard user :
  SignUpPage_effect user = if truthy user then [toHome] else [].
Proof. reflexivity. Qed.

Lemma SignInPage_effect_guard user :
  SignInPage_effect user = if truthy user then [toHome] else [].
Proof. reflexivity. Qed.

Lemma absent_same (a b : Deps) : sameDeps a b = true -> negb (truthy a.1) = negb (truthy b.1).
Proof. intros H. by rewrite (sameDeps_truthy a b H). Qed.

(** C7, the claim as stated fails: a second render of the home page with
    the same absent user and the same [navigate] does not run the effect,
    so that render issues no navigation. *)
Lemma guard_every_render_counterexample :
  ¬ (∀ (props : list Deps) (k : nat) (deps : Deps),
       props !! k = Some deps -> truthy deps.1 = false ->
       mountAndRender IndexPage_effect props !! k = Some [toSignIn]).
Proof.
  intros H.
  specialize (H [(Undefined, 0); (Undefined, 0)] 1 (Undefined, 0) eq_refl eq_refl).
  vm_compute in H. discriminate H.
Qed.

(** C7, amended: the guard of a page runs after the first render of the
    page and after every render at which the session user or [navigate]
    is not the one of the render before.  When it runs on the home page
    with the user absent it issues [navigate('/signin', { replace: true })],
    and when it runs on the sign-in or sign-up page with a user present
    it issues [navigate('/', { replace: true })].  So at every render of
    the home page with the user absent such a navigation was issued at
    that render or at an earlier render of the same mount since which
    the user was absent throughout, and likewise for the entry points
    with a user present. *)
Theorem guards_redirect_when_effect_runs :
  (∀ lastDeps deps,
     (renderPage IndexPage_effect lastDeps deps).1 =
     if effectRuns sameDeps lastDeps deps && negb (truthy deps.1) then [toSignIn] else [])
  ∧ (∀ lastDeps deps,
       (renderPage SignUpPage_effect lastDeps deps).1 =
       if effectRuns sameDeps lastDeps deps && truthy deps.1 then [toHome] else [])
  ∧ (∀ lastDeps deps,
       (renderPage SignInPage_effect lastDeps deps).1 =
       if effectRuns sameDeps lastDeps deps && truthy deps.1 then [toHome] else [])
  ∧ (∀ deps, effectRuns sameDeps None deps = true)
  ∧ (∀ prev deps, effectRuns sameDeps (Some prev) deps = negb (sameDeps prev deps))
  ∧ (∀ props k deps,
       props !! k = Some deps -> truthy deps.1 = false ->
       ∃ j, j ≤ k ∧ mountAndRender IndexPage_effect props !! j = Some [toSignIn]
            ∧ ∀ i d, j ≤ i ≤ k -> props !! i = Some d -> truthy d.1 = false)
  ∧ (∀ props k deps,
       props !! k = Some deps -> truthy deps.1 = true ->
       ∃ j, j ≤ k ∧ mountAndRender SignUpPage_effect props !! j = Some [toHome]
            ∧ ∀ i d, j ≤ i ≤ k -> props !! i = Some d -> truthy d.1 = true)
  ∧ (∀ props k deps,
       props !! k = Some deps -> truthy deps.1 = true ->
       ∃ j, j ≤ k ∧ mountAndRender SignInPage_effect props !! j = Some [toHome]
            ∧ ∀ i d, j ≤ i ≤ k -> props !! i = Some d -> truthy d.1 = true).
Proof.
  split; [intros; by apply (renderPage_guard (fun u => negb (truthy u)) toSignIn)|].
  split; [intros; by apply (renderPage_guard truthy toHome)|].
  split; [intros; by apply (renderPage_guard truthy toHome)|].
  split; [reflexivity|]. split; [reflexivity|].
  split; [|split].
  - intros props k deps Hk Habsent.
    destruct (mount_guard_streak (fun u => negb (truthy u)) toSignIn IndexPage_effect
                IndexPage_effect_guard absent_same props k deps Hk)
      as (j & Hj & Hrun & Hstreak); [by rewrite Habsent|].
    exists j. split; [exact Hj|]. split; [exact Hrun|].
    intros i d Hi Hd. apply negb_true_iff. by apply (Hstreak i d).
  - intros props k deps Hk Hpresent.
    exact (mount_guard_streak truthy toHome SignUpPage_effect
             SignUpPage_effect_guard sameDeps_truthy props k deps Hk Hpresent).
  - intros props k deps Hk Hpresent.
    exact (mount_guard_streak truthy toHome SignInPage_effect
             SignInPage_effect_guard sameDeps_truthy props k deps Hk Hpresent).
Qed.

Lemma guards_redirect_when_effect_runs_witness :
  let signedOut : Deps := (Undefined, 0) in
  let signedIn : Deps := (Object 1 (mkUser "1234" None None), 0) in
  mountAndRender IndexPage_effect [signedIn; signedOut; signedOut] =
    [[]; [toSignIn]; []]
  ∧ (∃ j, j ≤ 2 ∧ mountAndRender IndexPage_effect [signedIn; signedOut; signedOut] !! j =
            Some [toSignIn])
  ∧ (∃ j, j ≤ 1 ∧ mountAndRender SignInPage_effect [signedIn; signedIn] !! j =
            Some [toHome]).
Proof.
  intros signedOut signedIn. split; [reflexivity|]. split.
  - destruct (proj1 (proj2 (proj2 (proj2 (proj2 (proj2 guards_redirect_when_effect_runs)))))
                [signedIn; signedOut; signedOut] 2 signedOut eq_refl eq_refl)
      as (j & Hj & Hrun & _).
    exists j. split; [exact Hj|exact Hrun].
  - destruct (proj2 (proj2 (proj2 (proj2 (proj2 (proj2 (proj2 guards_redirect_when_effect_runs))))))
                [signedIn; signedIn] 1 signedIn eq_refl eq_refl)
      as (j & Hj & Hrun & _).
    exists j. split; [exact Hj|exact Hrun].
Defined.

End RouteGuards.

(** ** The profile service and the sign-up form *)

Section ServiceFacts.
Import JS ProfileService.

Lemma setUsername_not_ok fetch profileId username response :
  fetch (setUsername_request profileId username) = Responded response ->
  ok response = false ->
  setUsername fetch profileId username =
  Throw (newError (if bool_decide (status response = 409%Z)
                   then ERR_USERNAME_TAKEN else ERR_UNEXPECTED_ERROR)).
Proof.
  intros Hfetch Hok. unfold setUsername. rewrite Hfetch, Hok. cbn [negb].
  by case_bool_decide.
Qed.

Lemma setUsername_ok fetch profileId username response :
  fetch (setUsername_request profileId username) = Responded response ->
  ok response = true ->
  setUsername fetch profileId username = awaitJson (json response).
Proof. intros Hfetch Hok. unfold setUsername. by rewrite Hfetch, Hok. Qed.

Lemma awaitJson_not_newError (r : JsonResult) (message : string) :
  awaitJson r ≠ Throw (newError message).
Proof. by destruct r. Qed.

Lemma ok_409 (response : Response) : status response = 409%Z -> ok response = false.
Proof. unfold ok. intros ->. reflexivity. Qed.

Lemma setUsername_throws_newError fetch profileId username message :
  setUsername fetch profileId username = Throw (newError message) ->
  ∃ response,
    fetch (setUsername_request profileId username) = Responded response
    ∧ ok response = false
    ∧ message = (if bool_decide (status response = 409%Z)
                 then ERR_USERNAME_TAKEN else ERR_UNEXPECTED_ERROR).
Proof.
  unfold setUsername.
  destruct (fetch _) as [response|msg] eqn:Hfetch; [|discriminate].
  destruct (ok response) eqn:Hok; cbn [negb].
  - intros H. by apply awaitJson_not_newError in H.
  - intros H. exists response. split; [done|]. split; [done|].
    case_bool_decide; by injection H as <-.
Qed.

End ServiceFacts.

Section SignUpFacts.
Import JS AuthSignUpForm.

Lemma bind_lift_Return {E A B : Type} (a : A) (k : A -> Eff E B) :
  bind (lift (Return a)) k = k a.
Proof. unfold bind, lift. cbn [fst snd app]. by destruct (k a). Qed.

Lemma bind_lift_Throw {E A B : Type} (err : Thrown) (k : A -> Eff E B) :
  bind (lift (Throw err)) k = throw err.
Proof. reflexivity. Qed.

Lemma createUser_settled_object (fields : list (string * JSON)) :
  createUser_settled (Return (Some (JObject fields))) =
  if toBoolean (assoc "success" fields) then
    match assoc "data" fields with
    | Some (JObject dfields) => [OnSuccessCallback (assoc "id" dfields)]
    | Some JNull | None => genericFailure
    | Some _ => [OnSuccessCallback None]
    end
  else genericFailure.
Proof.
  unfold createUser_settled. rewrite bind_lift_Return. unfold onFulfilled.
  cbn [getProp]. rewrite bind_lift_Return.
  destruct (toBoolean (assoc "success" fields)); [|reflexivity].
  rewrite bind_lift_Return.
  destruct (assoc "data" fields) as [[| | | | |dfields]|]; reflexivity.
Qed.

Lemma createUser_settled_Return (res : Value) :
  createUser_settled (Return res) = genericFailure
  ∨ ∃ id, createUser_settled (Return res) = [OnSuccessCallback id].
Proof.
  destruct res as [[| | | | |fields]|]; try (left; reflexivity).
  rewrite createUser_settled_object.
  destruct (toBoolean (assoc "success" fields)); [|by left].
  destruct (assoc "data" fields) as [[| | | | |dfields]|];
    try (by left); right; by eexists.
Qed.

Lemma createUser_settled_falsy (res : Value) :
  (∀ success, getProp res "success" = Return success -> toBoolean success = false) ->
  createUser_settled (Return res) = genericFailure.
Proof.
  intros Hfalsy. destruct res as [[| | | | |fields]|]; try reflexivity.
  rewrite createUser_settled_object.
  by rewrite (Hfalsy (assoc "success" fields) eq_refl).
Qed.

Lemma onRejected_cases (err : Thrown) :
  onRejected err =
  if instanceofError err && bool_decide (message err = ERR_SIGNUP_REJECTED)
  then rejectedFailure else genericFailure.
Proof.
  destruct err as [name msg|v]; [|reflexivity].
  unfold onRejected. cbn [instanceofError message andb].
  case_bool_decide as Hempty; case_bool_decide as Hrej; try reflexivity.
  by rewrite Hempty in Hrej.
Qed.

End SignUpFacts.

Section FailureSignalling.
Import JS ProfileService AuthSignUpForm.

(** C8, the claim as stated fails: an ok response whose body is not JSON
    (a 204 with an empty body) makes [setUsername] throw the
    [SyntaxError] of [response.json()], whose message is none of the
    fixed codes. *)
Lemma setUsername_fixed_codes_counterexample :
  ¬ (∀ (fetch : Request -> FetchResult) (profileId username : string) (err : Thrown),
       setUsername fetch profileId username = Throw err -> carriesFixedCode err).
Proof.
  intros H.
  destruct (H (fun _ => Responded (mkResponse 204 (NotJSON "Unexpected end of JSON input")))
              "1234" "kevin" _ eq_refl) as [_ Hcode].
  revert Hcode. cbn [message]. unfold fixedCodes. by compute_done.
Qed.

(** C8, amended: every non-ok response to [setUsername] is signalled by a
    thrown [Error] whose message is a fixed code: [ERR_USERNAME_TAKEN]
    exactly when the status is 409 and [ERR_UNEXPECTED_ERROR] for every
    other non-ok response.  An ok response is returned as parsed, and a
    rejection of [fetch] or of [response.json()] is passed on as it is.
    In the sign-up form a fulfilled value whose [success] is not truthy
    is turned into [Error(ERR_UNEXPECTED_ERROR)], and every failure is
    shown as one of two fixed messages: the rejection message exactly
    when the error is an [Error] with message [ERR_SIGNUP_REJECTED], the
    generic message otherwise. *)
Theorem failures_signalled_by_fixed_codes :
  (∀ fetch profileId username,
     setUsername fetch profileId username = Throw (newError ERR_USERNAME_TAKEN)
     ↔ ∃ response, fetch (setUsername_request profileId username) = Responded response
                   ∧ status response = 409%Z)
  ∧ (∀ fetch profileId username,
       setUsername fetch profileId username = Throw (newError ERR_UNEXPECTED_ERROR)
       ↔ ∃ response, fetch (setUsername_request profileId username) = Responded response
                     ∧ ok response = false ∧ status response ≠ 409%Z)
  ∧ (∀ fetch profileId username response,
       fetch (setUsername_request profileId username) = Responded response ->
       ok response = false ->
       ∃ err, setUsername fetch profileId username = Throw err ∧ carriesFixedCode err)
  ∧ (∀ fetch profileId username response,
       fetch (setUsername_request profileId username) = Responded response ->
       ok response = true ->
       setUsername fetch profileId username = awaitJson (json response))
  ∧ (∀ fetch profileId username message,
       fetch (setUsername_request profileId username) = NetworkError message ->
       setUsername fetch profileId username = Throw (ErrorObject "TypeError" message))
  ∧ (∀ res, (∀ success, getProp res "success" = Return success -> toBoolean success = false) ->
       onFulfilled res = throw (newError ERR_UNEXPECTED_ERROR)
       ∨ ∃ message, onFulfilled res = throw (ErrorObject "TypeError" message))
  ∧ (∀ res, (∀ success, getProp res "success" = Return success -> toBoolean success = false) ->
       createUser_settled (Return res) = genericFailure)
  ∧ (∀ outcome,
       createUser_settled outcome = genericFailure
       ∨ createUser_settled outcome = rejectedFailure
       ∨ ∃ id, createUser_settled outcome = [OnSuccessCallback id])
  ∧ (∀ outcome,
       createUser_settled outcome = rejectedFailure
       ↔ ∃ name, outcome = Throw (ErrorObject name ERR_SIGNUP_REJECTED)).
Proof.
  split; [|split; [|split; [|split; [|split; [|split; [|split; [|split]]]]]]].
  - intros fetch profileId username. split.
    + intros H. apply setUsername_throws_newError in H as (response & Hfetch & Hok & Hmsg).
      exists response. split; [done|]. by case_bool_decide.
    + intros (response & Hfetch & Hstatus).
      rewrite (setUsername_not_ok _ _ _ _ Hfetch (ok_409 _ Hstatus)).
      by rewrite bool_decide_eq_true_2.
  - intros fetch profileId username. split.
    + intros H. apply setUsername_throws_newError in H as (response & Hfetch & Hok & Hmsg).
      exists response. split; [done|]. split; [done|]. by case_bool_decide.
    + intros (response & Hfetch & Hok & Hstatus).
      rewrite (setUsername_not_ok _ _ _ _ Hfetch Hok).
      by rewrite bool_decide_eq_false_2.
  - intros fetch profileId username response Hfetch Hok.
    eexists. split; [by apply setUsername_not_ok|].
    split; [reflexivity|]. cbn [message newError]. unfold fixedCodes.
    case_bool_decide; set_solver.
  - intros. by apply setUsername_ok.
  - intros fetch profileId username message Hfetch. unfold setUsername. by rewrite Hfetch.
  - intros res Hfalsy. destruct res as [[| | | | |fields]|];
      try (left; reflexivity); try (right; eexists; reflexivity).
    left. unfold onFulfilled. cbn [getProp]. rewrite bind_lift_Return.
    by rewrite (Hfalsy (assoc "success" fields) eq_refl).
  - apply createUser_settled_falsy.
  - intros [res|err].
    + destruct (createUser_settled_Return res) as [H|H]; [by left|by right; right].
    + change (createUser_settled (Throw err)) with (onRejected err).
      rewrite onRejected_cases. destruct (_ && _); [by right; left|by left].
  - intros [res|err]; split.
    + intros H. destruct (createUser_settled_Return res) as [H'|[id H']];
        rewrite H' in H; discriminate H.
    + intros [name H]. discriminate H.
    + change (createUser_settled (Throw err)) with (onRejected err).
      rewrite onRejected_cases. destruct err as [name msg|v]; cbn [instanceofError message andb].
      * case_bool_decide as Hmsg; [intros _; exists name; by rewrite Hmsg|].
        intros H. discriminate H.
      * intros H. discriminate H.
    + intros [name ->]. reflexivity.
Qed.

Lemma failures_signalled_by_fixed_codes_witness :
  let conflict := fun _ : Request => Responded (mkResponse 409 (NotJSON "")) in
  let broken := fun _ : Request => Responded (mkResponse 500 (NotJSON "")) in
  setUsername conflict "1234" "kevin" = Throw (newError ERR_USERNAME_TAKEN)
  ∧ (∃ err, setUsername broken "1234" "kevin" = Throw err ∧ carriesFixedCode err)
  ∧ createUser_settled (Return (Some responseErrorSignUpRejected)) = genericFailure
  ∧ createUser_settled (Throw (newError ERR_SIGNUP_REJECTED)) = rejectedFailure.
Proof.
  intros conflict broken.
  destruct failures_signalled_by_fixed_codes
    as (Htaken & _ & Hcode & _ & _ & _ & Hfalsy & _ & Hrejected).
  split; [|split; [|split]].
  - apply Htaken. exists (mkResponse 409 (NotJSON "")). split; reflexivity.
  - apply (Hcode broken "1234" "kevin" (mkResponse 500 (NotJSON ""))); reflexivity.
  - apply Hfalsy. intros success H. injection H as <-. reflexivity.
  - apply Hrejected. by exists "Error".
Defined.

End FailureSignalling.

Section UntrimmedPassword.
Import JS AuthSignUpForm.

Lemma formSignUpSubmitHandler_warned (data : SignUpFormData) :
  formSignUpSubmitHandler true data =
  [SetIsPasswordVisible false; OnSubmitCallback;
   if bool_decide (email data = "registered@example.com")
   then FetchMockPost 403 responseErrorSignUpRejected
   else FetchMockPost 200 responseSuccess;
   CreateUser data; FetchMockRestore].
Proof. unfold formSignUpSubmitHandler. cbn [negb andb app]. by case_bool_decide. Qed.

(** C10: a submission whose password differs from its trimmed value,
    made while the warning flag is not set, calls neither the auth
    service nor [onSubmit]: it sets the flag and raises the warning
    through [onError].  Once the flag is set, every submission goes on to
    [onSubmit] and the auth service, whether the password is trimmed or
    not, and raises no warning. *)
Theorem untrimmed_password_warns_once (data : SignUpFormData) :
  password data ≠ trim (password data) ->
  let first := formSignUpSubmitHandler false data in
  first = [SetIsPasswordVisible false; SetUserWarnedUntrimmedPassword true;
           OnErrorCallback MSG_WARN_UNTRIMMED]
  ∧ callsAuthService first = false
  ∧ callsOnSubmit first = false
  ∧ nextUserWarned false first = true
  ∧ (∀ later : SignUpFormData,
       let second := formSignUpSubmitHandler (nextUserWarned false first) later in
       callsOnSubmit second = true
       ∧ callsAuthService second = true
       ∧ CreateUser later ∈ second
       ∧ (∀ err, OnErrorCallback err ∉ second)
       ∧ nextUserWarned true second = true).
Proof.
  intros Huntrimmed first.
  assert (Hfirst : first = [SetIsPasswordVisible false; SetUserWarnedUntrimmedPassword true;
                            OnErrorCallback MSG_WARN_UNTRIMMED]).
  { unfold first, formSignUpSubmitHandler. cbn [negb andb].
    by rewrite bool_decide_eq_false_2. }
  rewrite Hfirst. split; [done|]. split; [done|]. split; [done|]. split; [done|].
  intros later second. unfold second.
  change (nextUserWarned false _) with true.
  rewrite formSignUpSubmitHandler_warned.
  split; [by case_bool_decide|]. split; [by case_bool_decide|].
  split; [set_solver|]. split; [|by case_bool_decide].
  intros err Hin. rewrite !elem_of_cons, elem_of_nil in Hin.
  destruct Hin as [H|[H|[H|[H|[H|[]]]]]]; try discriminate H.
  by case_bool_decide.
Qed.

Lemma untrimmed_password_warns_once_witness :
  let data := mkSignUpFormData "new@example.com" " secret 123 " in
  password data ≠ trim (password data)
  ∧ formSignUpSubmitHandler false data =
      [SetIsPasswordVisible false; SetUserWarnedUntrimmedPassword true;
       OnErrorCallback MSG_WARN_UNTRIMMED]
  ∧ CreateUser data ∈ formSignUpSubmitHandler true data.
Proof.
  intros data.
  assert (Huntrimmed : password data ≠ trim (password data)) by (vm_compute; discriminate).
  split; [exact Huntrimmed|].
  destruct (untrimmed_password_warns_once data Huntrimmed) as (Hfirst & _ & _ & Hwarned & Hlater).
  split; [exact Hfirst|].
  destruct (Hlater data) as (_ & _ & Hcreate & _).
  rewrite Hwarned in Hcreate. exact Hcreate.
Defined.

(** The trimmed value, on examples. *)
Example trim_examples :
  trim " secret 123 " = "secret 123"
  ∧ trim "secret123" = "secret123"
  ∧ trim (String (Ascii.ascii_of_nat 9) "pw  ") = "pw".
Proof. by vm_compute. Qed.

End UntrimmedPassword.

(** ** More on the modal queue *)

Section PopupModalManagerMore.
Import React JSArray PopupModalManager ModalOverlay.

Lemma render_queueAll calls p :
  getModals (render (queueAll calls p)) = insertAll calls (getModals (render p)).
Proof.
  induction calls as [|c calls IH] using rev_ind; [reflexivity|].
  rewrite queueAll_snoc, render_queueModal, IH. unfold insertAll. by rewrite foldl_app.
Qed.

Lemma insertAll_cons (calls : list (string * ModalInit)) (active : Modal) (rest : list Modal) :
  insertAll calls (active :: rest) =
  active :: reverse ((fun c => newModal c.1 c.2) <$> calls) ++ rest.
Proof.
  induction calls as [|c calls IH] using rev_ind; [reflexivity|].
  unfold insertAll in *. rewrite foldl_app. cbn [foldl]. rewrite IH, toSpliced_1_0.
  by rewrite fmap_app, reverse_app.
Qed.

Lemma insertAll_nil (c : string * ModalInit) (calls : list (string * ModalInit)) :
  insertAll (c :: calls) [] =
  newModal c.1 c.2 :: reverse ((fun c => newModal c.1 c.2) <$> calls).
Proof.
  unfold insertAll. cbn [foldl]. rewrite toSpliced_1_0.
  fold (insertAll calls [newModal c.1 c.2]). by rewrite insertAll_cons, app_nil_r.
Qed.

(** X1: queued descriptors wait in reverse order of queueing.  Behind
    the active descriptor the calls of a run appear latest first, ahead
    of the descriptors that were already waiting; from the empty queue
    the first call becomes active and the others follow latest first. *)
Theorem queueModal_order (calls : list (string * ModalInit)) (p : Provider) :
  getModals (render (queueAll calls p)) =
  match getModals (render p), calls with
  | active :: rest, _ => active :: reverse ((fun c => newModal c.1 c.2) <$> calls) ++ rest
  | [], c :: later => newModal c.1 c.2 :: reverse ((fun c => newModal c.1 c.2) <$> later)
  | [], [] => []
  end.
Proof.
  rewrite render_queueAll. destruct (getModals (render p)) as [|active rest].
  - destruct calls as [|c later]; [reflexivity|apply insertAll_nil].
  - apply insertAll_cons.
Qed.

Lemma handler_modals ops p : modals (handler ops p) = modals p.
Proof.
  induction ops as [|op ops IH] using rev_ind; [reflexivity|].
  unfold handler in *. rewrite foldl_app. cbn [foldl]. by destruct op.
Qed.

(** X2: [clearModals] empties the queue whatever the handler called
    before it, and the [queueModal] calls that follow it in the same
    handler build the queue they would build from the initial state. *)
Theorem clearModals_resets (ops : list Op) (calls : list (string * ModalInit)) (p : Provider) :
  getModals (render (clearModals (handler ops p))) = []
  ∧ getModals (render (queueAll calls (clearModals (handler ops p)))) =
      getModals (render (queueAll calls initial))
  ∧ length (getModals (render (queueAll calls (clearModals (handler ops p))))) = length calls.
Proof.
  assert (Hq : getModals (render (queueAll calls (clearModals (handler ops p)))) =
               getModals (render (queueAll calls initial)))
    by (by rewrite !render_queueAll, render_clearModals).
  split; [apply render_clearModals|]. split; [exact Hq|].
  rewrite Hq. apply queueAll_length.
Qed.

(** X3: for every queue, duplicates included, [hideModal(id)] leaves no
    descriptor with that id, shortens the queue by the number of
    descriptors that carried it, and hiding the same id again after the
    render changes nothing. *)
Theorem hideModal_removes_every_match (p : Provider) (i : string) :
  let q := getModals p in
  let q' := getModals (render (hideModal i p)) in
(i ∉ ids q')
  ∧ length q' + length (filter (fun modal => id modal = i) q) = length q
  ∧ getModals (render (hideModal i (render (hideModal i p)))) = q'.
Proof.
  intros q q'.
  assert (Hq' : q' = filter (fun modal => id modal ≠ i) q) by apply render_hideModal.
  split; [|split].
  - rewrite Hq'. intros Hin. apply list_elem_of_fmap_1 in Hin as (m & Hid & Hm).
    apply list_elem_of_filter in Hm as [Hne _]. by apply Hne.
  - rewrite Hq'. clear. induction q as [|m q IH]; [reflexivity|].
    destruct (decide (id m = i)) as [Heq|Hne].
    + rewrite filter_cons_False, (filter_cons_True (fun modal => id modal = i)) by tauto.
      cbn [length]. lia.
    + rewrite filter_cons_True, (filter_cons_False (fun modal => id modal = i)) by tauto.
      cbn [length]. lia.
  - rewrite render_hideModal. fold q'. rewrite Hq'.
    apply filter_all. intros m Hm. by apply list_elem_of_filter in Hm as [Hne _].
Qed.

(** X4: within one event handler [hideModal] starts from the queue of
    the current render: every call the handler made before it
    ([queueModal], [hideModal] and [clearModals] alike) is discarded, and
    the [queueModal] calls made after it are applied on top. *)
Theorem hideModal_discards_earlier_calls
    (ops : list Op) (i : string) (calls : list (string * ModalInit)) (p : Provider) :
  getModals (render (queueAll calls (hideModal i (handler ops p)))) =
  insertAll calls (filter (fun modal => id modal ≠ i) (getModals p))
  ∧ (∀ j, getModals (render (hideModal i (hideModal j p))) =
          filter (fun modal => id modal ≠ i) (getModals p))
  ∧ (∀ j m, m ∈ getModals p -> id m = j -> j ≠ i ->
            m ∈ getModals (render (hideModal i (hideModal j p))))
  ∧ (∀ j, getModals (render (hideModal i (render (hideModal j p)))) =
          filter (fun modal => id modal ≠ i) (filter (fun modal => id modal ≠ j) (getModals p))).
Proof.
  split; [|split; [|split]].
  - rewrite render_queueAll, render_hideModal. unfold getModals. by rewrite handler_modals.
  - intros j. by rewrite render_hideModal.
  - intros j m Hm Hj Hne. rewrite render_hideModal. apply list_elem_of_filter.
    split; [by rewrite Hj|exact Hm].
  - intros j. by rewrite !render_hideModal.
Qed.

Lemma hideModal_discards_earlier_calls_witness :
  let A := mkModal "a" "busy" [] in
  let B := mkModal "b" "alert" [] in
  getModals (render (hideModal "b" (hideModal "a" (mkProvider [A; B] [])))) = [A]
  ∧ A ∈ getModals (render (hideModal "b" (hideModal "a" (mkProvider [A; B] [])))).
Proof.
  intros A B. split; [reflexivity|].
  apply (proj1 (proj2 (proj2 (hideModal_discards_earlier_calls [] "b" [] (mkProvider [A; B] []))))
           "a" A); [by left|reflexivity|discriminate].
Defined.

(** X5: distinct ids are kept.  When the descriptors of the queue have
    pairwise distinct ids and the id of the new descriptor (the explicit
    one, or else the generated one) is not among them, the queue after
    [queueModal] has pairwise distinct ids again; [hideModal] keeps them
    distinct too. *)
Theorem distinct_ids_preserved (uuid : string) (modal : ModalInit) (i : string) (p : Provider) :
  NoDup (ids (getModals (render p))) ->
  default uuid (init_id modal) ∉ ids (getModals (render p)) ->
  NoDup (ids (getModals (render (queueModal uuid modal p))))
  ∧ NoDup (ids (getModals (render (hideModal i (render p)))))
  ∧ NoDup (ids (getModals (render (hideModal i (render (queueModal uuid modal p)))))).
Proof.
  intros Hnd Hfresh.
  assert (Hhide : ∀ q : list Modal, NoDup (ids q) ->
            NoDup (ids (filter (fun modal => id modal ≠ i) q))).
  { intros q Hq. unfold ids in *.
    apply (sublist_NoDup _ (id <$> q)); [exact Hq|apply fmap_sublist, sublist_filter]. }
  assert (Hqueue : NoDup (ids (getModals (render (queueModal uuid modal p))))).
  { rewrite render_queueModal, toSpliced_1_0.
    destruct (getModals (render p)) as [|active rest]; unfold ids in *; cbn in *.
    - apply NoDup_singleton.
    - apply NoDup_cons in Hnd as [Hactive Hrest].
      apply not_elem_of_cons in Hfresh as [Hne Hfresh].
      repeat (apply NoDup_cons; split); [|done..].
      rewrite elem_of_cons. intros [Heq|Hin]; [by apply Hne|by apply Hactive]. }
  split; [exact Hqueue|]. split.
  - rewrite render_hideModal. by apply Hhide.
  - rewrite render_hideModal. by apply Hhide.
Qed.

Lemma distinct_ids_preserved_witness :
  let A := mkModal "a" "busy" [] in
  let B := mkModal "b" "alert" [] in
  NoDup (ids (getModals (render (queueModal "generated" (mkModalInit None "alert" [])
                                   (mkProvider [A; B] []))))).
Proof.
  intros A B.
  apply (distinct_ids_preserved "generated" (mkModalInit None "alert" []) "a"
           (mkProvider [A; B] []));
    first [by compute_done | vm_compute; by compute_done].
Defined.

End PopupModalManagerMore.

(** ** Successive submissions of the sign-up form *)

Section SignUpSession.
Import JS AuthSignUpForm SignUpSchema.

Lemma formSignUpSubmitHandler_cases (warned : bool) (data : SignUpFormData) :
  formSignUpSubmitHandler warned data =
  if negb warned && negb (bool_decide (password data = trim (password data)))
  then [SetIsPasswordVisible false; SetUserWarnedUntrimmedPassword true;
        OnErrorCallback MSG_WARN_UNTRIMMED]
  else [SetIsPasswordVisible false; OnSubmitCallback;
        if bool_decide (email data = "registered@example.com")
        then FetchMockPost 403 responseErrorSignUpRejected
        else FetchMockPost 200 responseSuccess;
        CreateUser data; FetchMockRestore].
Proof.
  unfold formSignUpSubmitHandler.
  destruct (negb warned && _); [reflexivity|].
  cbn [app]. by case_bool_decide.
Qed.

Lemma submission_facts (warned : bool) (data : SignUpFormData) :
  let calls := formSignUpSubmitHandler warned data in
  callsAuthService calls = negb (raisesWarning calls)
  ∧ callsOnSubmit calls = negb (raisesWarning calls)
  ∧ (∀ d, CreateUser d ∈ calls -> d = data)
  ∧ head calls = Some (SetIsPasswordVisible false)
  ∧ nextUserWarned warned calls = warned || raisesWarning calls
  ∧ (raisesWarning calls = true -> warned = false).
Proof.
  intros calls. unfold calls. rewrite formSignUpSubmitHandler_cases.
  destruct (negb warned && _) eqn:Hwarn.
  - split; [reflexivity|]. split; [reflexivity|]. split; [|split; [reflexivity|split]].
    + intros d Hin. rewrite !elem_of_cons, elem_of_nil in Hin.
      destruct Hin as [H|[H|[H|[]]]]; discriminate H.
    + destruct warned; reflexivity.
    + intros _. apply andb_prop in Hwarn as [Hw _]. by destruct warned.
  - destruct (bool_decide (email data = "registered@example.com")).
    all: split; [reflexivity|]; split; [reflexivity|].
    all: split; [|split; [reflexivity|split; [destruct warned; reflexivity|discriminate]]].
    all: intros d Hin; rewrite !elem_of_cons, elem_of_nil in Hin.
    all: destruct Hin as [H|[H|[H|[H|[H|[]]]]]]; try discriminate H; by injection H.
Qed.

Lemma submitAll_warned (submissions : list SignUpFormData) :
  filter (fun calls => raisesWarning calls = true) (submitAll true submissions) = [].
Proof.
  induction submissions as [|data rest IH]; [reflexivity|].
  cbn [submitAll].
  destruct (submission_facts true data) as (_ & _ & _ & _ & Hnext & Hraise).
  rewrite Hnext. cbn [orb].
  rewrite filter_cons_False; [exact IH|].
  intros Hr. specialize (Hraise Hr). discriminate Hraise.
Qed.

(** X7: over any run of submissions, with a render pass after each, the
    form raises its warning at most once.  Every submission first masks
    the password field, and then either raises the warning, or calls
    [onSubmit] and the auth service with the submitted data unchanged:
    never both. *)
Theorem warning_raised_at_most_once (warned : bool) (submissions : list SignUpFormData) :
  length (filter (fun calls => raisesWarning calls = true) (submitAll warned submissions)) ≤ 1
  ∧ Forall2 (fun data calls =>
               callsAuthService calls = negb (raisesWarning calls)
               ∧ callsOnSubmit calls = negb (raisesWarning calls)
               ∧ (∀ d, CreateUser d ∈ calls -> d = data)
               ∧ head calls = Some (SetIsPasswordVisible false))
       submissions (submitAll warned submissions).
Proof.
  split.
  - revert warned. induction submissions as [|data rest IH]; intros warned; [cbn; lia|].
    cbn [submitAll].
    destruct (submission_facts warned data) as (_ & _ & _ & _ & Hnext & Hraise).
    rewrite Hnext.
    destruct (raisesWarning (formSignUpSubmitHandler warned data)) eqn:Hr.
    + rewrite orb_true_r, filter_cons_True by exact Hr.
      rewrite submitAll_warned. cbn. lia.
    + rewrite orb_false_r, filter_cons_False by (rewrite Hr; discriminate).
      apply IH.
  - revert warned. induction submissions as [|data rest IH]; intros warned;
      cbn [submitAll]; constructor; [|apply IH].
    destruct (submission_facts warned data) as (H1 & H2 & H3 & H4 & _). by repeat split.
Qed.

End SignUpSession.

(** ** The password schema and the trimmed value *)

Section PasswordSchema.
Import JS AuthSignUpForm SignUpSchema.

Lemma rev_app_app (s1 s2 s3 : string) :
  String.rev_app s1 s2 +:+ s3 = String.rev_app s1 (s2 +:+ s3).
Proof. revert s2. induction s1 as [|c s1 IH]; intros s2; [reflexivity|]. cbn. by rewrite IH. Qed.

Lemma rev_String (c : Ascii.ascii) (s : string) :
  String.rev (String c s) = String.rev s +:+ String c "".
Proof. unfold String.rev. cbn [String.rev_app]. by rewrite rev_app_app. Qed.

Lemma rev_app_append (s1 s2 acc : string) :
  String.rev_app (s1 +:+ s2) acc = String.rev_app s2 (String.rev_app s1 acc).
Proof.
  revert acc. induction s1 as [|c s1 IH]; intros acc; [reflexivity|].
  change (String c s1 +:+ s2) with (String c (s1 +:+ s2)). cbn [String.rev_app]. by rewrite IH.
Qed.

Lemma rev_snoc (s : string) (c : Ascii.ascii) :
  String.rev (s +:+ String c "") = String c (String.rev s).
Proof. unfold String.rev. by rewrite rev_app_append. Qed.

Lemma rev_involutive (s : string) : String.rev (String.rev s) = s.
Proof.
  induction s as [|c s IH]; [reflexivity|].
  by rewrite rev_String, rev_snoc, IH.
Qed.

Lemma length_append (s1 s2 : string) :
  String.length (s1 +:+ s2) = String.length s1 + String.length s2.
Proof.
  induction s1 as [|c s1 IH]; [reflexivity|].
  change (String c s1 +:+ s2) with (String c (s1 +:+ s2)). cbn [String.length]. by rewrite IH.
Qed.

Lemma length_rev (s : string) : String.length (String.rev s) = String.length s.
Proof.
  induction s as [|c s IH]; [reflexivity|].
  rewrite rev_String, length_append, IH. cbn. lia.
Qed.

(** A string that is not empty ends in a last character. *)
Lemma string_snoc (c : Ascii.ascii) (s : string) :
  ∃ init last, String c s = init +:+ String last "".
Proof.
  revert c. induction s as [|d s IH]; intros c.
  - by exists "", c.
  - destruct (IH d) as (init & last & Heq). exists (String c init), last.
    change (String c init +:+ String last "") with (String c (init +:+ String last "")).
    by rewrite Heq.
Qed.

Lemma trimStart_length (s : string) : String.length (trimStart s) ≤ String.length s.
Proof.
  induction s as [|c s IH]; [reflexivity|].
  cbn [trimStart]. destruct (isWhiteSpace c); cbn [String.length]; lia.
Qed.

Lemma trimEnd_length (s : string) : String.length (trimEnd s) ≤ String.length s.
Proof.
  unfold trimEnd. rewrite length_rev.
  etrans; [apply trimStart_length|]. by rewrite length_rev.
Qed.

Lemma trimStart_fixed (c : Ascii.ascii) (s : string) :
  trimStart (String c s) = String c s ↔ isWhiteSpace c = false.
Proof.
  cbn [trimStart]. destruct (isWhiteSpace c); split; try done.
  intros Heq. pose proof (trimStart_length s) as Hlen.
  rewrite Heq in Hlen. cbn [String.length] in Hlen. lia.
Qed.

Lemma trimEnd_fixed (init : string) (last : Ascii.ascii) :
  trimEnd (init +:+ String last "") = init +:+ String last "" ↔ isWhiteSpace last = false.
Proof.
  unfold trimEnd. rewrite rev_snoc. rewrite <- trimStart_fixed. split.
  - intros Heq. apply (f_equal String.rev) in Heq.
    rewrite rev_involutive, rev_snoc in Heq. exact Heq.
  - intros Heq. by rewrite Heq, <- rev_snoc, rev_involutive.
Qed.

(** The trimmed value is the string itself exactly when neither its
    first nor its last character is white space. *)
Lemma trim_fixed (first last : Ascii.ascii) (rest init : string) :
  String first rest = init +:+ String last "" ->
  trim (String first rest) = String first rest
  ↔ isWhiteSpace first = false ∧ isWhiteSpace last = false.
Proof.
  intros Hsnoc. unfold trim. split.
  - intros Heq. destruct (isWhiteSpace first) eqn:Hfirst.
    + pose proof (trimEnd_length (trimStart (String first rest))) as Hlen.
      rewrite Heq in Hlen. cbn [trimStart] in Hlen. rewrite Hfirst in Hlen.
      pose proof (trimStart_length rest). cbn [String.length] in Hlen. lia.
    + split; [done|]. rewrite (proj2 (trimStart_fixed first rest) Hfirst), Hsnoc in Heq.
      by apply trimEnd_fixed in Heq.
  - intros [Hfirst Hlast].
    rewrite (proj2 (trimStart_fixed first rest) Hfirst), Hsnoc.
    by apply trimEnd_fixed.
Qed.

Lemma passwordChar_whiteSpace (c : Ascii.ascii) :
  passwordChar c = true -> isWhiteSpace c = true -> c = Ascii.ascii_of_nat 32.
Proof.
  destruct c as [[] [] [] [] [] [] [] []]; vm_compute; intros H1 H2;
    first [reflexivity | discriminate H1 | discriminate H2].
Qed.

Lemma matchesPasswordPattern_append (s1 s2 : string) :
  matchesPasswordPattern (s1 +:+ s2) =
  matchesPasswordPattern s1 && matchesPasswordPattern s2.
Proof.
  induction s1 as [|c s1 IH]; [reflexivity|].
  change (String c s1 +:+ s2) with (String c (s1 +:+ s2)).
  cbn [matchesPasswordPattern]. by rewrite IH, andb_assoc.
Qed.

Lemma passwordValid_spec (password : string) :
  passwordValid password = true
  ↔ 8 ≤ String.length password ∧ matchesPasswordPattern password = true.
Proof.
  unfold passwordValid, passwordIssues. rewrite bool_decide_eq_true.
  case_bool_decide as Hlen; destruct (matchesPasswordPattern password);
    cbn; split; try done; try (intros [? ?]; (lia || done)).
  intros _. split; [lia|done].
Qed.

(** X8: a password the schema accepts differs from its trimmed value
    exactly when it begins or ends with a space, so these are the
    passwords for which the first submission raises the warning instead
    of calling the auth service. *)
Theorem valid_password_untrimmed_iff_space (email password : string) :
  passwordValid password = true ->
  (password ≠ trim password
   ↔ (∃ rest, password = " " +:+ rest) ∨ (∃ init, password = init +:+ " "))
  ∧ (callsAuthService (formSignUpSubmitHandler false (mkSignUpFormData email password)) = false
     ↔ (∃ rest, password = " " +:+ rest) ∨ (∃ init, password = init +:+ " ")).
Proof.
  intros Hvalid. apply passwordValid_spec in Hvalid as [Hlen Hmatch].
  destruct password as [|first rest]; [cbn in Hlen; lia|].
  destruct (string_snoc first rest) as (init & last & Hsnoc).
  assert (Hfirst : passwordChar first = true)
    by (cbn [matchesPasswordPattern] in Hmatch; by apply andb_prop in Hmatch as [? _]).
  assert (Hlast : passwordChar last = true).
  { rewrite Hsnoc, matchesPasswordPattern_append in Hmatch.
    apply andb_prop in Hmatch as [_ Hmatch]. cbn [matchesPasswordPattern] in Hmatch.
    by apply andb_prop in Hmatch as [? _]. }
  assert (Hiff : String first rest ≠ trim (String first rest)
                 ↔ (∃ rest', String first rest = " " +:+ rest')
                   ∨ (∃ init', String first rest = init' +:+ " ")).
  { pose proof (trim_fixed first last rest init Hsnoc) as Hfixed. split.
    - intros Hne.
      destruct (isWhiteSpace first) eqn:Hwf.
      { left. exists rest. by rewrite (passwordChar_whiteSpace first Hfirst Hwf). }
      destruct (isWhiteSpace last) eqn:Hwl.
      { right. exists init. by rewrite Hsnoc, (passwordChar_whiteSpace last Hlast Hwl). }
      exfalso. apply Hne. symmetry. by apply Hfixed.
    - intros Hspace Heq. symmetry in Heq. apply Hfixed in Heq as [Hwf Hwl].
      destruct Hspace as [[rest' Hspace]|[init' Hspace]].
      + change (" " +:+ rest') with (String (Ascii.ascii_of_nat 32) rest') in Hspace.
        injection Hspace as -> _. discriminate Hwf.
      + rewrite Hsnoc in Hspace. apply (f_equal String.rev) in Hspace.
        rewrite !rev_snoc in Hspace. injection Hspace as -> _. discriminate Hwl. }
  split; [exact Hiff|].
  rewrite <- Hiff, formSignUpSubmitHandler_cases. cbn [negb andb password].
  case_bool_decide as Htrim; cbn [negb].
  - case_bool_decide; split; (done || (intros Hne; by destruct Hne)).
  - split; done.
Qed.

Lemma valid_password_untrimmed_iff_space_witness :
  passwordValid " secret 123" = true
  ∧ " secret 123" ≠ trim " secret 123"
  ∧ callsAuthService
      (formSignUpSubmitHandler false (mkSignUpFormData "new@example.com" " secret 123")) = false.
Proof.
  assert (Hvalid : passwordValid " secret 123" = true) by (by vm_compute).
  destruct (valid_password_untrimmed_iff_space "new@example.com" " secret 123" Hvalid)
    as [Htrim Hcalls].
  split; [exact Hvalid|]. split.
  - apply Htrim. left. by exists "secret 123".
  - apply Hcalls. left. by exists "secret 123".
Defined.

End PasswordSchema.

(** ** The sign-up and sign-in pages *)

Section AuthPagesFacts.
Import JS Routes AuthSignUpForm AuthPages.

Lemma pageRun_snoc fallback events e st :
  pageRun fallback (events ++ [e]) st = pageStep fallback (pageRun fallback events st) e.
Proof. unfold pageRun. by rewrite foldl_app. Qed.

Lemma orElse_nonempty (err : option string) (fallback : string) :
  fallback ≠ "" -> orElse err fallback ≠ "".
Proof.
  intros Hfb. destruct err as [e|]; cbn; [|done]. by case_bool_decide.
Qed.

Lemma pageRun_message fallback events :
  alertModalMessage (pageRun fallback events initialPage) =
  (fun err => orElse err fallback) <$> last (errorsOf events).
Proof.
  induction events as [|e events IH] using rev_ind; [reflexivity|].
  rewrite pageRun_snoc. unfold errorsOf. rewrite omap_app. fold (errorsOf events).
  destruct e as [|id|err|]; cbn [pageStep omap list_omap].
  - by rewrite app_nil_r.
  - by rewrite app_nil_r.
  - change (omap _ [FormError err]) with [err]. by rewrite last_snoc.
  - by rewrite app_nil_r.
Qed.

Lemma pageRun_alert fallback events :
  isAlertModalOpen (pageRun fallback events initialPage) = true ->
  is_Some (alertModalMessage (pageRun fallback events initialPage)).
Proof.
  induction events as [|e events IH] using rev_ind; [discriminate|].
  rewrite pageRun_snoc. destruct e as [|id|err|]; cbn; (done || eauto).
Qed.

(** X9: on both pages, after any sequence of submissions, successes,
    errors and dismissals, the alert message is the reason of the most
    recent error, with the page's own message in place of an absent or
    empty reason; so whenever the alert is open it has a message, and
    the message is not empty. *)
Theorem alert_shows_latest_error (events : list PageEvent) :
  (∀ fallback,
     alertModalMessage (pageRun fallback events initialPage) =
     (fun err => orElse err fallback) <$> last (errorsOf events))
  ∧ (isAlertModalOpen (pageRun SignUpPage_fallback events initialPage) = true ->
     ∃ m, alertModalMessage (pageRun SignUpPage_fallback events initialPage) = Some m ∧ m ≠ "")
  ∧ (isAlertModalOpen (pageRun SignInPage_fallback events initialPage) = true ->
     ∃ m, alertModalMessage (pageRun SignInPage_fallback events initialPage) = Some m ∧ m ≠ "").
Proof.
  assert (Hopen : ∀ fallback, fallback ≠ "" ->
            isAlertModalOpen (pageRun fallback events initialPage) = true ->
            ∃ m, alertModalMessage (pageRun fallback events initialPage) = Some m ∧ m ≠ "").
  { intros fallback Hfb Halert. destruct (pageRun_alert _ _ Halert) as [m Hm].
    exists m. split; [exact Hm|]. rewrite pageRun_message in Hm.
    destruct (last (errorsOf events)) as [err|]; [|discriminate Hm].
    injection Hm as <-. by apply orElse_nonempty. }
  split; [intros; apply pageRun_message|].
  split; apply Hopen; discriminate.
Qed.

Lemma alert_shows_latest_error_witness :
  let events := [FormSubmit; FormError (Some "first"); AlertDismiss; FormSubmit; FormError None] in
  alertModalMessage (pageRun SignUpPage_fallback events initialPage) = Some "Sign up failed"
  ∧ ∃ m, alertModalMessage (pageRun SignInPage_fallback events initialPage) = Some m ∧ m ≠ "".
Proof.
  intros events. split.
  - exact (proj1 (alert_shows_latest_error events) SignUpPage_fallback).
  - exact (proj2 (proj2 (alert_shows_latest_error events)) eq_refl).
Defined.

(** X10: whatever way the promise of [createUser] settles, once the
    form's callbacks have reached the sign-up page the page is no longer
    submitting: on success the backdrop is closed, on every failure the
    alert is open over the backdrop with one of the two fixed messages. *)
Theorem settled_request_ends_submitting (outcome : Completion Value) (st : PageState) :
  let st' := deliver (createUser_settled outcome) (onFormSubmit st) in
  isSubmitting st' = false
  ∧ (((∃ id, createUser_settled outcome = [OnSuccessCallback id])
      ∧ isModalOpen st' = false
      ∧ isAlertModalOpen st' = isAlertModalOpen st
      ∧ alertModalMessage st' = alertModalMessage st)
     ∨ (isModalOpen st' = true
        ∧ isAlertModalOpen st' = true
        ∧ (alertModalMessage st' = Some MSG_ERR_GENERIC
           ∨ alertModalMessage st' = Some MSG_ERR_REJECTED))).
Proof.
  intros st'.
  assert (Hcases : createUser_settled outcome = genericFailure
                   ∨ createUser_settled outcome = rejectedFailure
                   ∨ ∃ id, createUser_settled outcome = [OnSuccessCallback id]).
  { destruct outcome as [res|err].
    - destruct (createUser_settled_Return res) as [H|H]; [by left|by right; right].
    - change (createUser_settled (Throw err)) with (onRejected err).
      rewrite onRejected_cases. destruct (_ && _); [by right; left|by left]. }
  unfold st'. destruct Hcases as [H|[H|[id H]]]; rewrite H.
  - split; [reflexivity|]. right. split; [reflexivity|]. split; [reflexivity|]. by left.
  - split; [reflexivity|]. right. split; [reflexivity|]. split; [reflexivity|]. by right.
  - split; [reflexivity|]. left. split; [by exists id|]. by repeat split.
Qed.

(** X11: what a submission does to the sign-up page: the warning about
    an untrimmed password opens the alert with the warning text and
    does not start the submitting state, every other submission starts
    it and opens the backdrop without touching the alert. *)
Theorem submission_reaches_page (warned : bool) (data : SignUpFormData) (st : PageState) :
  let calls := formSignUpSubmitHandler warned data in
  deliver calls st =
  if negb warned && negb (bool_decide (password data = trim (password data)))
  then mkPageState false true true (Some MSG_WARN_UNTRIMMED)
  else mkPageState true true (isAlertModalOpen st) (alertModalMessage st).
Proof.
  intros calls. unfold calls. rewrite formSignUpSubmitHandler_cases.
  destruct (negb warned && _); [reflexivity|].
  by destruct (bool_decide (email data = "registered@example.com")).
Qed.

End AuthPagesFacts.

(** ** The profile-picture page *)

Section ProfilePicturePageFacts.
Import JS ProfileSetupWizardContext ProfileSetupProfilePicture ProfilePicturePage.

Context {R CropParams : Type}.
Variable wizardController : WizardContext R.

Lemma page_run_snoc (events : list Event) (e : Event) :
  run wizardController (events ++ [e]) = step wizardController (run wizardController events) e.
Proof. unfold run. by rewrite foldl_app. Qed.

Lemma settled_calls (outcome : Completion Value) :
  ∃ calls : list (Call R),
    handleSubmitResponse_settled wizardController outcome =
      calls ++ [SetIsLoading false; FetchMockRestore]
    ∧ (calls = []
       ∨ (∃ err, calls = [ConsoleError err])
       ∨ (∃ r, calls = [WizardCall r] ∧ goToNextStep wizardController = Some r)).
Proof.
  unfold handleSubmitResponse_settled. eexists. split; [reflexivity|].
  destruct outcome as [res|err]; [|right; left; by eexists].
  rewrite bind_lift_Return.
  destruct (getProp res "success") as [success|err] eqn:Hprop;
    [rewrite bind_lift_Return|right; left; by eexists].
  destruct (toBoolean success); [|by left].
  destruct (goToNextStep wizardController) as [r|]; [|by left].
  right; right. by exists r.
Qed.

Lemma step_settled_state (outcome : Completion Value) (st : State) :
  step wizardController st (SubmitSettled outcome) = setIsLoading false st.
Proof.
  cbn [step]. destruct (settled_calls outcome) as (calls & -> & Hcalls).
  rewrite foldl_app.
  destruct Hcalls as [->|[[err ->]|(r & -> & _)]]; reflexivity.
Qed.

Lemma step_submit_state (st : State) :
  step wizardController st Submit = setIsLoading true st.
Proof. cbn [step]. by destruct (croppedImage st). Qed.

(** X12: in every state the page renders exactly one of its three
    blocks: the busy screen, the crop editor or the form. *)
Theorem views_exactly_one (st : State) :
  ∃ v, views st = [v]
       ∧ (v = BusyView ↔ isLoading st = true)
       ∧ (v = EditorView ↔ isLoading st = false ∧ isCropEditorVisible st = true)
       ∧ (v = FormView ↔ isLoading st = false ∧ isCropEditorVisible st = false).
Proof.
  unfold views. destruct (isLoading st), (isCropEditorVisible st); cbn;
    eexists; (split; [reflexivity|]); repeat split; try done; intros [? ?]; done.
Qed.

(** The editor is visible exactly while a non-empty source is stored. *)
Lemma run_editor_source (events : list Event) :
  isCropEditorVisible (run wizardController events) =
  truthyString (imageFileSrc (run wizardController events)).
Proof.
  induction events as [|e events IH] using rev_ind; [reflexivity|].
  rewrite page_run_snoc. destruct e as [|outcome|blob objectUrl| | |outcome].
  - exact IH.
  - cbn [step]. unfold handleFileSelect_settled.
    destruct outcome as [url|err]; [|exact IH].
    destruct (truthyString url) eqn:Hurl; [|exact IH]. reflexivity.
  - reflexivity.
  - reflexivity.
  - rewrite step_submit_state. exact IH.
  - rewrite step_settled_state. exact IH.
Qed.

(** X13: in every state the page can reach, when the crop editor is
    visible its source is a non-empty string; so [handleConfirm] does not
    throw 'No crop image source' of its own there: it throws only what
    [cropImage] threw, or 'No crop result returned' when [cropImage]
    gave no blob.  With [onApply] given it first asks [cropImage] for a
    crop of that source and hands exactly the blob it gets to
    [onApply]. *)
Theorem editor_has_source (events : list Event) :
  let st := run wizardController events in
  isCropEditorVisible st = true ->
  ∃ src, imageFileSrc st = Some src ∧ src ≠ ""
    ∧ (∀ onApply (params : option CropParams) cropped err,
         (handleConfirm (imageFileSrc st) onApply params cropped).2 = Throw err ->
         cropped = Throw err
         ∨ (cropped = Return None ∧ err = newError "No crop result returned"))
    ∧ (∀ (params : option CropParams) blob,
         handleConfirm (imageFileSrc st) true params (Return (Some blob)) =
         ([CropImage src params; OnApply blob], Return ()))
    ∧ (∀ (params : option CropParams) cropped,
         (handleConfirm (imageFileSrc st) false params cropped) = ([], Return ())).
Proof.
  intros st Hvisible. unfold st in *. rewrite run_editor_source in Hvisible.
  destruct (imageFileSrc (run wizardController events)) as [src|]; [|discriminate].
  exists src. split; [reflexivity|].
  assert (Hsrc : src ≠ "") by (cbn in Hvisible; by case_bool_decide).
  split; [exact Hsrc|].
  unfold handleConfirm. rewrite Hvisible. cbn [negb]. split; [|split].
  - intros [] params cropped err; [|discriminate].
    destruct cropped as [[blob|]|err']; intros H; cbv in H.
    + discriminate H.
    + injection H as <-. by right.
    + injection H as <-. by left.
  - reflexivity.
  - reflexivity.
Qed.

End ProfilePicturePageFacts.

Lemma editor_has_source_witness :
  let events := [ProfilePicturePage.FileSelect;
                 ProfilePicturePage.FileSelectSettled (JS.Return (Some "blob:picked"))] in
  let st := ProfilePicturePage.run (R:=()) None events in
  ProfilePicturePage.isCropEditorVisible st = true
  ∧ ∃ src, ProfilePicturePage.imageFileSrc st = Some src ∧ src ≠ "".
Proof.
  intros events st. split; [reflexivity|].
  destruct (editor_has_source (R:=()) (CropParams:=()) None events eq_refl)
    as (src & Hsrc & Hne & _).
  exists src. by split.
Defined.

Section ProfilePictureSubmit.
Import JS ProfileSetupWizardContext ProfileSetupProfilePicture ProfilePicturePage.

Context {R : Type}.
Variable wizardController : WizardContext R.

Lemma run_croppedImage (events : list Event) :
  croppedImage (run wizardController events) = last (confirmed events).
Proof.
  induction events as [|e events IH] using rev_ind; [reflexivity|].
  rewrite page_run_snoc. unfold confirmed. rewrite omap_app. fold (confirmed events).
  destruct e as [|outcome|blob objectUrl| | |outcome].
  - change (omap _ [FileSelect]) with (@nil Blob). by rewrite app_nil_r.
  - change (omap _ [FileSelectSettled outcome]) with (@nil Blob). rewrite app_nil_r, <- IH.
    cbn [step]. unfold handleFileSelect_settled.
    destruct outcome as [url|err]; [|reflexivity]. by destruct (truthyString url).
  - change (omap _ [CropConfirm blob objectUrl]) with [blob]. by rewrite last_snoc.
  - change (omap _ [CropCancel]) with (@nil Blob). by rewrite app_nil_r.
  - change (omap _ [Submit]) with (@nil Blob). by rewrite app_nil_r, step_submit_state.
  - change (omap _ [SubmitSettled outcome]) with (@nil Blob).
    by rewrite app_nil_r, step_settled_state.
Qed.

Lemma run_preview_cropped (events : list Event) :
  is_Some (imagePreviewUrl (run wizardController events)) ->
  is_Some (croppedImage (run wizardController events)).
Proof.
  induction events as [|e events IH] using rev_ind; [by intros [? ?]|].
  rewrite page_run_snoc. destruct e as [|outcome|blob objectUrl| | |outcome].
  - exact IH.
  - cbn [step]. unfold handleFileSelect_settled.
    destruct outcome as [url|err]; [|exact IH]. destruct (truthyString url); exact IH.
  - intros _. by eexists.
  - exact IH.
  - rewrite step_submit_state. exact IH.
  - rewrite step_settled_state. exact IH.
Qed.

(** X14: in every state the page can reach, when the form shows the
    Continue button a cropped image is stored, so the submit operation
    does not throw: it goes on to [setProfilePicture] with the blob of
    the most recent crop confirmation. *)
Theorem continue_uploads_latest_crop (events : list Event) :
  let st := run wizardController events in
  continueShown (imagePreviewUrl st) = true ->
  ∃ blob, last (confirmed events) = Some blob
    ∧ croppedImage st = Some blob
    ∧ (handleSubmitResponse (R:=R) (croppedImage st)).2 = Return ()
    ∧ last (handleSubmitResponse (R:=R) (croppedImage st)).1 = Some (SetProfilePicture "1234" blob).
Proof.
  intros st Hshown.
  assert (Hpreview : is_Some (imagePreviewUrl st)).
  { unfold continueShown in Hshown. destruct (imagePreviewUrl st); [by eexists|discriminate]. }
  destruct (run_preview_cropped events Hpreview) as [blob Hblob].
  exists blob. unfold st in *. rewrite <- run_croppedImage, Hblob. by repeat split.
Qed.

(** X16: between choosing a file and the end of its processing the page
    is busy, and it stops being busy however [fixImageOrientation]
    settles.  The editor opens on the new source exactly when the
    promise fulfils with a non-empty URL; with an empty or missing URL,
    or a rejection, the page shows what it showed before.  Cancelling
    the editor keeps the stored crop and preview; confirming stores the
    blob, shows its object URL as preview and closes the editor. *)
Theorem file_selection_flow (outcome : Completion (option string)) (st : State) :
  views (handleFileSelect st) = [BusyView]
  ∧ isLoading (handleFileSelect_settled outcome (handleFileSelect st)) = false
  ∧ (∀ url, url ≠ "" ->
       outcome = Return (Some url) ->
       views (handleFileSelect_settled outcome (handleFileSelect st)) = [EditorView]
       ∧ imageFileSrc (handleFileSelect_settled outcome (handleFileSelect st)) = Some url)
  ∧ ((∀ url, outcome = Return (Some url) -> url = "") ->
       handleFileSelect_settled outcome (handleFileSelect st) = setIsLoading false st)
  ∧ (isCropEditorVisible (hideCropper st) = false
     ∧ croppedImage (hideCropper st) = croppedImage st
     ∧ imagePreviewUrl (hideCropper st) = imagePreviewUrl st)
  ∧ (∀ blob objectUrl,
       let st' := (handleCropConfirm blob objectUrl st).1 in
       isCropEditorVisible st' = false
       ∧ croppedImage st' = Some blob
       ∧ imagePreviewUrl st' = Some objectUrl).
Proof.
  split; [|split; [|split; [|split; [|split]]]].
  - unfold views, handleFileSelect. cbn. by destruct (isCropEditorVisible st).
  - reflexivity.
  - intros url Hurl ->.
    unfold views, handleFileSelect_settled, showCropper, truthyString. cbn.
    rewrite !bool_decide_eq_false_2 by exact Hurl. cbn.
    rewrite ?bool_decide_eq_false_2 by exact Hurl. by cbn.
  - intros Hempty. unfold handleFileSelect_settled.
    destruct outcome as [[url|]|err]; try reflexivity.
    rewrite (Hempty url eq_refl). reflexivity.
  - by repeat split.
  - intros blob objectUrl st'. by repeat split.
Qed.

Lemma file_selection_flow_witness :
  views (handleFileSelect_settled (Return (Some "blob:picked")) (handleFileSelect initialState)) =
    [EditorView]
  ∧ handleFileSelect_settled (Return (Some "")) (handleFileSelect initialState) = initialState.
Proof.
  destruct (file_selection_flow (Return (Some "blob:picked")) initialState)
    as (_ & _ & Hopen & _).
  destruct (file_selection_flow (Return (Some "")) initialState) as (_ & _ & _ & Hkeep & _).
  split.
  - apply (Hopen "blob:picked"); [discriminate|reflexivity].
  - apply Hkeep. intros url H. by injection H as <-.
Defined.

End ProfilePictureSubmit.

Lemma continue_uploads_latest_crop_witness :
  let first := ProfileSetupProfilePicture.mkBlob 10 "image/png" in
  let second := ProfileSetupProfilePicture.mkBlob 20 "image/png" in
  let events :=
    [ProfilePicturePage.FileSelect;
     ProfilePicturePage.FileSelectSettled (JS.Return (Some "blob:a"));
     ProfilePicturePage.CropConfirm first "blob:1";
     ProfilePicturePage.FileSelect;
     ProfilePicturePage.FileSelectSettled (JS.Return (Some "blob:b"));
     ProfilePicturePage.CropConfirm second "blob:2";
     ProfilePicturePage.FileSelect;
     ProfilePicturePage.FileSelectSettled (JS.Return (Some "blob:c"));
     ProfilePicturePage.CropCancel] in
  let st := ProfilePicturePage.run (R:=()) None events in
  ProfilePicturePage.continueShown (ProfilePicturePage.imagePreviewUrl st) = true
  ∧ ProfilePicturePage.croppedImage st = Some second.
Proof.
  intros first second events st. split; [reflexivity|].
  destruct (continue_uploads_latest_crop (R:=()) None events eq_refl)
    as (blob & Hlast & Hcropped & _).
  unfold st. rewrite Hcropped, <- Hlast. reflexivity.
Defined.

(** ** checkUsernameAvailability *)

Section CheckUsernameFacts.
Import JS ProfileService ProfileServiceCheck.

(** X17: [checkUsernameAvailability] never looks at the status: a
    fulfilled response of any status is answered with whatever
    [response.json()] settles with, so a non-ok response that
    [setUsername] turns into a thrown fixed code is returned as a value
    here.  It throws only what [fetch] or [response.json()] rejected
    with, an abort through the forwarded signal included, and never an
    error of its own. *)
Theorem checkUsernameAvailability_ignores_status
    (fetch : CheckRequest -> Settled) (username : string) (signal : option nat) :
  (∀ status status' body,
     checkUsernameAvailability (fun _ => Fulfilled (mkCheckResponse status body)) username signal =
     checkUsernameAvailability (fun _ => Fulfilled (mkCheckResponse status' body)) username signal)
  ∧ (∀ status j profileId,
       ok (mkResponse status (Parsed j)) = false ->
       checkUsernameAvailability (fun _ => Fulfilled (mkCheckResponse status (Return j)))
         username signal = Return (Some j)
       ∧ ∃ err, setUsername (fun _ => Responded (mkResponse status (Parsed j)))
                  profileId username = Throw err ∧ carriesFixedCode err)
  ∧ (∀ err, checkUsernameAvailability fetch username signal = Throw err
       ↔ fetch (checkUsernameAvailability_request username signal) = Rejected err
         ∨ ∃ response,
             fetch (checkUsernameAvailability_request username signal) = Fulfilled response
             ∧ check_json response = Throw err)
  ∧ (∀ v, checkUsernameAvailability fetch username signal = Return v
       ↔ ∃ response j,
           fetch (checkUsernameAvailability_request username signal) = Fulfilled response
           ∧ check_json response = Return j ∧ v = Some j).
Proof.
  split; [reflexivity|]. split; [|split].
  - intros status j profileId Hok. split; [reflexivity|].
    eexists. split; [by apply (setUsername_not_ok _ _ _ (mkResponse status (Parsed j)))|].
    split; [reflexivity|]. cbn [message newError]. unfold fixedCodes.
    case_bool_decide; set_solver.
  - intros err. unfold checkUsernameAvailability.
    destruct (fetch _) as [response|err']; [destruct (check_json response) as [j|err'] eqn:Hjson|].
    + split; [discriminate|]. intros [H|(response' & [= <-] & H)]; [discriminate H|].
      rewrite Hjson in H. discriminate H.
    + split.
      * intros [= ->]. right. by exists response.
      * intros [H|(response' & [= <-] & H)]; [discriminate H|].
        rewrite Hjson in H. by injection H as ->.
    + split.
      * intros [= ->]. by left.
      * intros [[= ->]|(response' & H & _)]; [done|discriminate H].
  - intros v. unfold checkUsernameAvailability.
    destruct (fetch _) as [response|err']; [destruct (check_json response) as [j|err'] eqn:Hjson|].
    + split.
      * intros [= <-]. by exists response, j.
      * intros (response' & j' & [= <-] & H & ->). rewrite Hjson in H. by injection H as ->.
    + split; [discriminate|].
      intros (response' & j' & [= <-] & H & _). rewrite Hjson in H. discriminate H.
    + split; [discriminate|]. intros (response' & j' & H & _). discriminate H.
Qed.

Lemma checkUsernameAvailability_ignores_status_witness :
  let body := JObject [("data", JObject [("username", JString "kevin"); ("isAvailable", JBool false)])] in
  let aborted := ErrorObject "AbortError" "The operation was aborted." in
  checkUsernameAvailability (fun _ => Fulfilled (mkCheckResponse 500 (Return body))) "kevin" None =
    Return (Some body)
  ∧ (∃ err, setUsername (fun _ => Responded (mkResponse 500 (Parsed body))) "1234" "kevin" = Throw err
            ∧ carriesFixedCode err)
  ∧ checkUsernameAvailability (fun _ => Fulfilled (mkCheckResponse 200 (Throw aborted)))
      "kevin" (Some 1) = Throw aborted.
Proof.
  intros body aborted. split; [|split].
  - exact (proj1 (proj1 (proj2 (checkUsernameAvailability_ignores_status
                                  (fun _ => Fulfilled (mkCheckResponse 500 (Return body)))
                                  "kevin" None))
                    500%Z body "1234" eq_refl)).
  - exact (proj2 (proj1 (proj2 (checkUsernameAvailability_ignores_status
                                  (fun _ => Fulfilled (mkCheckResponse 500 (Return body)))
                                  "kevin" None))
                    500%Z body "1234" eq_refl)).
  - apply (proj1 (proj2 (proj2 (checkUsernameAvailability_ignores_status
                                  (fun _ => Fulfilled (mkCheckResponse 200 (Throw aborted)))
                                  "kevin" (Some 1))))).
    right. by eexists.
Defined.

End CheckUsernameFacts.

(** ** The profile-setup page *)

Section ProfileSetupPageFacts.
Import ProfileSetupPage.

Lemma findIndexFrom_spec {A : Type} (callback : A -> nat -> bool) (l : list A) :
  ∀ index,
    (findIndexFrom callback index l = (-1)%Z
     ∧ ∀ j x, l !! j = Some x -> callback x (index + j) = false)
    ∨ (∃ k x, findIndexFrom callback index l = Z.of_nat (index + k)
              ∧ l !! k = Some x ∧ callback x (index + k) = true
              ∧ ∀ j y, j < k -> l !! j = Some y -> callback y (index + j) = false).
Proof.
  induction l as [|a l IH]; intros index; [left; by split|].
  cbn [findIndexFrom]. destruct (callback a index) eqn:Ha.
  - right. exists 0, a. rewrite Nat.add_0_r. repeat split; [done|]. intros j y Hj. lia.
  - destruct (IH (S index)) as [[Hnone Hall]|(k & x & Hres & Hk & Hx & Hbefore)].
    + left. split; [exact Hnone|]. intros [|j] y Hy.
      * injection Hy as <-. by rewrite Nat.add_0_r.
      * replace (index + S j) with (S index + j) by lia. by apply Hall.
    + right. exists (S k), x. replace (index + S k) with (S index + k) by lia.
      repeat split; [done..|]. intros [|j] y Hj Hy.
      * injection Hy as <-. by rewrite Nat.add_0_r.
      * replace (index + S j) with (S index + j) by lia. apply Hbefore; [lia|exact Hy].
Qed.

Lemma usernameCallback_true (el : Slide) (index : nat) :
  toBooleanIndex (usernameCallback el index) = true ↔ el = Some "username" ∧ 1 ≤ index.
Proof.
  unfold usernameCallback. case_bool_decide as Hel; destruct index; cbn; split;
    try done; try (intros [? ?]; (done || lia)).
  intros _. split; [done|lia].
Qed.

Lemma usernameCallback_false (el : Slide) (index : nat) :
  toBooleanIndex (usernameCallback el index) = false ↔ el ≠ Some "username" ∨ index = 0.
Proof.
  rewrite <- not_true_iff_false, usernameCallback_true. split.
  - intros Hnot. destruct (decide (el = Some "username")) as [Hel|Hel]; [|by left].
    right. destruct index; [done|]. exfalso. apply Hnot. split; [done|lia].
  - intros [Hel| ->] [Hel' Hindex]; [done|lia].
Qed.

(** X18: the lookup of the username slide never answers 0, because the
    callback returns the index itself and index 0 is falsy.  It answers
    the first index from 1 on that holds a username slide, and [-1]
    when there is none from 1 on, also when the username slide is the
    first one.  For the slides of the page it answers 1. *)
Theorem stepUsernameIndex_skips_first (slides : list Slide) :
  stepUsernameIndex slides ≠ 0%Z
  ∧ (stepUsernameIndex slides = (-1)%Z
     ↔ ∀ j, 1 ≤ j -> slides !! j ≠ Some (Some "username"))
  ∧ (∀ k, stepUsernameIndex slides = Z.of_nat k ->
          1 ≤ k ∧ slides !! k = Some (Some "username")
          ∧ ∀ j, 1 ≤ j < k -> slides !! j ≠ Some (Some "username"))
  ∧ stepUsernameIndex (Some "username" :: filter (fun el => el ≠ Some "username") slides) = (-1)%Z
  ∧ stepUsernameIndex pageSlides = 1%Z.
Proof.
  assert (Hspec : ∀ l : list Slide,
            (stepUsernameIndex l = (-1)%Z
             ∧ ∀ j, 1 ≤ j -> l !! j ≠ Some (Some "username"))
            ∨ (∃ k, stepUsernameIndex l = Z.of_nat k ∧ 1 ≤ k
                    ∧ l !! k = Some (Some "username")
                    ∧ ∀ j, 1 ≤ j < k -> l !! j ≠ Some (Some "username"))).
  { intros l. unfold stepUsernameIndex, findIndex.
    destruct (findIndexFrom_spec
                (fun el index => toBooleanIndex (usernameCallback el index)) l 0)
      as [[Hnone Hall]|(k & x & Hres & Hk & Hx & Hbefore)].
    - left. split; [exact Hnone|]. intros j Hj Hsl.
      specialize (Hall j _ Hsl). cbn in Hall.
      apply usernameCallback_false in Hall as [Hne| ->]; [done|lia].
    - right. cbn in Hres, Hx. apply usernameCallback_true in Hx as [-> Hk1].
      exists k. repeat split; [done..|]. intros j [Hj1 Hjk] Hsl.
      specialize (Hbefore j _ Hjk Hsl). cbn in Hbefore.
      apply usernameCallback_false in Hbefore as [Hne| ->]; [done|lia]. }
  split; [|split; [|split; [|split]]].
  - destruct (Hspec slides) as [[-> _]|(k & -> & Hk & _)]; lia.
  - destruct (Hspec slides) as [[Hres Hall]|(k & Hres & Hk & Hsl & _)].
    + by split.
    + rewrite Hres. split; [lia|]. intros Hall. by destruct (Hall k Hk).
  - intros k Hk. destruct (Hspec slides) as [[Hres _]|(k' & Hres & Hk' & Hsl & Hbefore)].
    + rewrite Hres in Hk. lia.
    + rewrite Hres in Hk. apply Nat2Z.inj in Hk as <-. by repeat split.
  - destruct (Hspec (Some "username" :: filter (fun el => el ≠ Some "username") slides))
      as [[Hres _]|(k & _ & Hk & Hsl & _)]; [exact Hres|].
    destruct k as [|k]; [lia|]. cbn in Hsl.
    apply list_elem_of_lookup_2, list_elem_of_filter in Hsl as [Hne _]. done.
  - reflexivity.
Qed.

End ProfileSetupPageFacts.

(** ** The guards together *)

Section GuardsTogether.
Import React JS Routes.

(** X19: the guards cannot bounce a visitor back and forth.  For every
    session value exactly one side redirects at mount: the home page
    sends an absent user ([undefined] or [null]) to sign-in and the
    entry pages stay, or the entry pages send a present user home and
    the home page stays.  A guard issues at most one navigation per
    render, and every navigation it issues replaces the history entry. *)
Theorem guards_never_loop (lastDeps : option Deps) (deps : Deps) :
  ((mountAndRender IndexPage_effect [deps] = [[toSignIn]]
    ∧ mountAndRender SignInPage_effect [deps] = [[]]
    ∧ mountAndRender SignUpPage_effect [deps] = [[]]
    ∧ truthy deps.1 = false)
   ∨ (mountAndRender IndexPage_effect [deps] = [[]]
      ∧ mountAndRender SignInPage_effect [deps] = [[toHome]]
      ∧ mountAndRender SignUpPage_effect [deps] = [[toHome]]
      ∧ truthy deps.1 = true))
  ∧ (∀ effect, effect ∈ [IndexPage_effect; SignInPage_effect; SignUpPage_effect] ->
       length (renderPage effect lastDeps deps).1 ≤ 1
       ∧ ∀ n, n ∈ (renderPage effect lastDeps deps).1 -> replace n = true).
Proof.
  split.
  - destruct deps as [[| |addr user] navigate]; [left|left|right]; by repeat split.
  - intros effect Heffect. rewrite !elem_of_cons, elem_of_nil in Heffect.
    unfold renderPage. cbn [fst].
    destruct (effectRuns sameDeps lastDeps deps);
      [|split; [cbn; lia|intros n Hn; by apply elem_of_nil in Hn]].
    destruct Heffect as [->|[->|[->|[]]]];
      unfold IndexPage_effect, SignInPage_effect, SignUpPage_effect;
      destruct (truthy deps.1); cbn [negb length];
      (split; [lia|]); intros n Hn; rewrite ?elem_of_cons, ?elem_of_nil in Hn;
      destruct Hn as [->|[]] || destruct Hn; reflexivity.
Qed.

Lemma guards_never_loop_witness :
  let signedOut : Deps := (Null, 0) in
  length (renderPage IndexPage_effect None signedOut).1 ≤ 1
  ∧ ∀ n, n ∈ (renderPage IndexPage_effect None signedOut).1 -> replace n = true.
Proof.
  intros signedOut.
  apply (proj2 (guards_never_loop None signedOut) IndexPage_effect). by left.
Defined.

End GuardsTogether.

(** ** What counts as a successful sign-up *)

Section SignUpSuccessShape.
Import JS Routes AuthSignUpForm AuthPages.

(** X20: a fulfilled value of [createUser] with a truthy [success] is
    taken as a success unless its [data] is [null] or missing: the id
    handed to the page is the [id] field of an object [data], and
    [undefined] when [data] has no such field or is a number, a string,
    a boolean or an array.  The page then stores that id as the session
    user and navigates home, replacing the history entry. *)
Theorem truthy_success_signs_in (fields : list (string * JSON)) :
  toBoolean (assoc "success" fields) = true ->
  (∀ dfields, assoc "data" fields = Some (JObject dfields) ->
     createUser_settled (Return (Some (JObject fields))) = [OnSuccessCallback (assoc "id" dfields)])
  ∧ (assoc "data" fields = None ∨ assoc "data" fields = Some JNull ->
     createUser_settled (Return (Some (JObject fields))) = genericFailure)
  ∧ (∀ data, assoc "data" fields = Some data ->
       data ≠ JNull -> (∀ dfields, data ≠ JObject dfields) ->
       createUser_settled (Return (Some (JObject fields))) = [OnSuccessCallback None])
  ∧ (∀ id st,
       omap pageEvent [OnSuccessCallback id] = [FormSuccess id]
       ∧ (onFormSuccess id st).2 = [SetActiveUser id; Navigate toHome]
       ∧ isSubmitting (onFormSuccess id st).1 = false).
Proof.
  intros Hsuccess. rewrite createUser_settled_object, Hsuccess.
  split; [|split; [|split]].
  - intros dfields ->. reflexivity.
  - intros [-> | ->]; reflexivity.
  - intros data -> Hnull Hobj.
    destruct data as [| | | | |dfields]; try reflexivity; [done|by destruct (Hobj dfields)].
  - intros id st. by repeat split.
Qed.

Lemma truthy_success_signs_in_witness :
  createUser_settled
    (Return (Some (JObject [("success", JBool true); ("data", JNumber 5)]))) =
  [OnSuccessCallback None].
Proof.
  apply (proj1 (proj2 (proj2 (truthy_success_signs_in
                                [("success", JBool true); ("data", JNumber 5)] eq_refl)))
           (JNumber 5) eq_refl); [discriminate|intros dfields; discriminate].
Defined.

End SignUpSuccessShape.

(** ** The fetch mock across calls, and the promise chain *)

Section ProfilePictureMockFacts.
Import JS ProfileSetupWizardContext ProfileSetupProfilePicture ProfilePictureMock.

Context {R S : Type}.




Variable wizardController : WizardContext (Completion S).

Lemma chain_cases (outcome : Completion Value) :
  handleSubmitResponse_chain wizardController outcome =
  match outcome with
  | Throw err => [ConsoleError err]
  | Return res =>
      match getProp res "success" with
      | Throw err => [ConsoleError err]
      | Return success =>
          if toBoolean success then
            match goToNextStep wizardController with
            | Some (Return s) => [WizardCall (Return s)]
            | Some (Throw err) => [WizardCall (Throw err); ConsoleError err]
            | None => []
            end
          else []
      end
  end ++ [SetIsLoading false; FetchMockRestore].
Proof.
  unfold handleSubmitResponse_chain. f_equal.
  destruct outcome as [res|err]; [|reflexivity].
  rewrite bind_lift_Return. unfold onFulfilled.
  destruct (getProp res "success") as [success|err]; [|reflexivity].
  rewrite bind_lift_Return. destruct (toBoolean success); [|reflexivity].
  destruct (goToNextStep wizardController) as [[s|err]|]; reflexivity.
Qed.

(** A controller whose [setCurrentStep] returns: the chain is the one
    [handleSubmitResponse_settled] describes. *)
Lemma chain_settled (outcome : Completion Value) :
  (∀ err, goToNextStep wizardController ≠ Some (Throw err)) ->
  handleSubmitResponse_chain wizardController outcome =
  handleSubmitResponse_settled wizardController outcome.
Proof.
  intros Hreturns. rewrite chain_cases. unfold handleSubmitResponse_settled. f_equal.
  destruct outcome as [res|err]; [|reflexivity].
  rewrite bind_lift_Return.
  destruct (getProp res "success") as [success|err]; [|reflexivity].
  rewrite bind_lift_Return. destruct (toBoolean success); [|reflexivity].
  destruct (goToNextStep wizardController) as [[s|err]|] eqn:Hnext; try reflexivity.
  by destruct (Hreturns err).
Qed.


End ProfilePictureMockFacts.

